(** * The request pipeline of the API gateway (gateway/gateway.js)

    A shallow embedding of the request handler, of [getEndpoint], of the
    proxy event handlers and of the JavaScript built-ins they rely on
    ([RegExp.prototype.test], [String.prototype.replace]), followed by the
    properties of the pipeline.

    The handler is written in continuation-passing style, as in the source:
    every collaborator receives the rest of the pipeline as its callback, and
    all effects (fields set on [req], the response, the log, the headers of
    the upstream request) are threaded through an explicit [World]. *)

From Stdlib Require Import String Ascii List Bool Arith NArith Lia.
Import ListNotations.
Open Scope list_scope.
Open Scope string_scope.
Open Scope nat_scope.

Set Implicit Arguments.
Set Warnings "-register-all".

(* ================================================================= *)
(** ** JavaScript values *)

(** The values that flow through the callbacks: [err], [tokenId],
    [req.userIP], response bodies.  Numbers are naturals here (status codes
    and counters are the only numbers the pipeline sees). *)
Inductive value : Type :=
| VUndefined
| VNull
| VBool (b : bool)
| VNum (n : nat)
| VStr (s : string)
| VObj (props : list (string * value)).

(** ToBoolean, as used by [if (err)] and [if (!req.userIP)]. *)
Definition truthy (v : value) : bool :=
  match v with
  | VUndefined | VNull => false
  | VBool b => b
  | VNum n => negb (n =? 0)
  | VStr s => negb (String.eqb s "")
  | VObj _ => true
  end.

(** Property read [v.key]; a missing property and a read on a primitive
    both give [undefined]. *)
Fixpoint get_prop_in (props : list (string * value)) (key : string) : value :=
  match props with
  | [] => VUndefined
  | (k, v) :: rest => if String.eqb k key then v else get_prop_in rest key
  end.

Definition get_prop (v : value) (key : string) : value :=
  match v with
  | VObj props => get_prop_in props key
  | _ => VUndefined
  end.

(* ================================================================= *)
(** ** Strings: prefixes and suffixes by position *)

Module Str.

(** [s.substring(0, n)] *)
Fixpoint take (n : nat) (s : string) : string :=
  match n, s with
  | S n', String c s' => String c (take n' s')
  | _, _ => EmptyString
  end.

(** [s.substring(n)] *)
Fixpoint drop (n : nat) (s : string) : string :=
  match n, s with
  | S n', String _ s' => drop n' s'
  | _, _ => s
  end.

(** [s.substring(i, j)] for [i <= j] *)
Definition slice (i j : nat) (s : string) : string := take (j - i) (drop i s).

(** [s.split(c)[0]] *)
Fixpoint before_char (c : ascii) (s : string) : string :=
  match s with
  | EmptyString => EmptyString
  | String c' s' => if Ascii.eqb c c' then EmptyString else String c' (before_char c s')
  end.


End Str.

(* ================================================================= *)
(** ** Regular expressions *)

(** The endpoint patterns are [RegExp] objects without the [g] and [y]
    flags, so [lastIndex] stays 0 and [test] and [replace] are pure.  The
    fragment of the pattern language modelled: literals, [.], character
    classes, sequence, alternation, greedy [*], capturing groups (numbered
    by their opening parenthesis), and the assertions [^] and [$]. *)
Module Regex.

Inductive regex : Type :=
| Empty
| Char (c : ascii)
| AnyChar
| Class (negated : bool) (cs : list ascii)
| Seq (r1 r2 : regex)
| Alt (r1 r2 : regex)
| Star (r : regex)
| Group (i : nat) (r : regex)
| Bol
| Eol.

(** Captures: group number and captured text, the latest binding first. *)
Definition captures := list (nat * string).

(** The state of a match in progress is the end index reached so far, the
    input that remains from there, and the captures. *)
Definition result := (nat * captures)%type.
Definition cont := nat -> string -> captures -> option result.

Definition line_terminator (c : ascii) : bool :=
  Ascii.eqb c "010"%char || Ascii.eqb c "013"%char.

Definition in_class (c : ascii) (cs : list ascii) : bool :=
  existsb (Ascii.eqb c) cs.

(** The numbers of the capturing groups inside a pattern. *)
Fixpoint groups_in (r : regex) : list nat :=
  match r with
  | Seq r1 r2 | Alt r1 r2 => (groups_in r1 ++ groups_in r2)%list
  | Star r' => groups_in r'
  | Group i r' => i :: groups_in r'
  | _ => []
  end.

(** Forgets the captures of the groups [gs]. *)
Definition clear_groups (gs : list nat) (caps : captures) : captures :=
  filter (fun c => negb (existsb (Nat.eqb (fst c)) gs)) caps.

(** The loop of [r*]: up to [n] more iterations of the matcher [m] of [r],
    then the continuation.  The loop is greedy; each iteration starts with
    the captures of the groups [gs] of [r] forgotten; an iteration that
    consumes nothing is rejected, as the language specification has it, so
    that [length s] iterations are all an input [s] allows. *)
Fixpoint star_loop (m : nat -> string -> captures -> cont -> option result)
         (gs : list nat) (k : cont) (n : nat) (pos : nat) (s : string)
         (caps : captures) : option result :=
  match n with
  | 0 => k pos s caps
  | S n' =>
      match m pos s (clear_groups gs caps)
              (fun pos' s' caps' =>
                 if pos <? pos' then star_loop m gs k n' pos' s' caps' else None)
      with
      | Some res => Some res
      | None => k pos s caps
      end
  end.

(** The backtracking matcher of the language specification, in
    continuation-passing style: [rmatch r pos s caps k] matches [r] at
    index [pos], where [s] is the input from [pos] on, and hands the state
    reached to [k]; a failure of [k] makes the matcher try its next
    alternative. *)
Fixpoint rmatch (r : regex) (pos : nat) (s : string) (caps : captures)
         (k : cont) {struct r} : option result :=
  match r with
  | Empty => k pos s caps
  | Char c =>
      match s with
      | String c' s' => if Ascii.eqb c c' then k (S pos) s' caps else None
      | EmptyString => None
      end
  | AnyChar =>
      match s with
      | String c' s' => if line_terminator c' then None else k (S pos) s' caps
      | EmptyString => None
      end
  | Class negated cs =>
      match s with
      | String c' s' =>
          if xorb negated (in_class c' cs) then k (S pos) s' caps else None
      | EmptyString => None
      end
  | Seq r1 r2 =>
      rmatch r1 pos s caps (fun pos' s' caps' => rmatch r2 pos' s' caps' k)
  | Alt r1 r2 =>
      match rmatch r1 pos s caps k with
      | Some res => Some res
      | None => rmatch r2 pos s caps k
      end
  | Star r' => star_loop (rmatch r') (groups_in r') k (String.length s) pos s caps
  | Group i r' =>
      rmatch r' pos s caps
        (fun pos' s' caps' => k pos' s' ((i, Str.take (pos' - pos) s) :: caps'))
  | Bol => if pos =? 0 then k pos s caps else None
  | Eol => match s with EmptyString => k pos s caps | _ => None end
  end.

(** The number of capturing groups of a pattern ([m] in GetSubstitution). *)
Fixpoint ngroups (r : regex) : nat :=
  match r with
  | Seq r1 r2 | Alt r1 r2 => Nat.max (ngroups r1) (ngroups r2)
  | Star r' => ngroups r'
  | Group i r' => Nat.max i (ngroups r')
  | _ => 0
  end.

(** A successful match: where it starts, where it ends, what it captured. *)
Record match_result : Type := MatchResult {
  m_start : nat;
  m_end : nat;
  m_caps : captures
}.

(** [exec_from r pos s]: the leftmost match of [r] at an index [>= pos],
    [s] being the input from [pos] on. *)
Fixpoint exec_from (r : regex) (pos : nat) (s : string) : option match_result :=
  match rmatch r pos s [] (fun e _ c => Some (e, c)) with
  | Some (e, c) => Some (MatchResult pos e c)
  | None =>
      match s with
      | EmptyString => None
      | String _ s' => exec_from r (S pos) s'
      end
  end.

(** [r.exec(s)] with [lastIndex = 0]. *)
Definition exec (r : regex) (s : string) : option match_result :=
  exec_from r 0 s.

(** [r.test(s)] *)
Definition test (r : regex) (s : string) : bool :=
  match exec r s with Some _ => true | None => false end.

(** The text of capture [n]; a group that did not take part is the empty
    string in a substitution. *)
Fixpoint capture (caps : captures) (n : nat) : string :=
  match caps with
  | [] => EmptyString
  | (i, txt) :: rest => if i =? n then txt else capture rest n
  end.

Definition digit_of (c : ascii) : option nat :=
  let n := nat_of_ascii c in
  if (48 <=? n) && (n <=? 57) then Some (n - 48) else None.

(** GetSubstitution: the expansion of a replacement template.  [m] is the
    number of groups of the pattern, [matched] the matched text, [pre] and
    [suf] the input before and after it. *)
Fixpoint expand (m : nat) (caps : captures) (matched pre suf : string)
         (tmpl : string) {struct tmpl} : string :=
  match tmpl with
  | EmptyString => EmptyString
  | String c rest =>
      if Ascii.eqb c "$"%char then
        match rest with
        | String c1 rest1 =>
            if Ascii.eqb c1 "$"%char then
              String "$"%char (expand m caps matched pre suf rest1)
            else if Ascii.eqb c1 "&"%char then
              matched ++ expand m caps matched pre suf rest1
            else if Ascii.eqb c1 "`"%char then
              pre ++ expand m caps matched pre suf rest1
            else if Ascii.eqb c1 "'"%char then
              suf ++ expand m caps matched pre suf rest1
            else
              match digit_of c1 with
              | Some d1 =>
                  let one_digit :=
                    if (1 <=? d1) && (d1 <=? m)
                    then capture caps d1 ++ expand m caps matched pre suf rest1
                    else String c (String c1 (expand m caps matched pre suf rest1)) in
                  match rest1 with
                  | String c2 rest2 =>
                      match digit_of c2 with
                      | Some d2 =>
                          let nn := 10 * d1 + d2 in
                          if (1 <=? nn) && (nn <=? m)
                          then capture caps nn ++ expand m caps matched pre suf rest2
                          else one_digit
                      | None => one_digit
                      end
                  | EmptyString => one_digit
                  end
              | None => String c (expand m caps matched pre suf rest)
              end
        | EmptyString => String c EmptyString
        end
      else String c (expand m caps matched pre suf rest)
  end.

(** [s.replace(r, tmpl)] for a pattern without the [g] flag: the first
    match is replaced by the expanded template, the text before and after
    it is kept; without a match the string is returned as it is. *)
Definition replace (s : string) (r : regex) (tmpl : string) : string :=
  match exec r s with
  | None => s
  | Some mr =>
      let pre := Str.take (m_start mr) s in
      let matched := Str.slice (m_start mr) (m_end mr) s in
      let suf := Str.drop (m_end mr) s in
      pre ++ expand (ngroups r) (m_caps mr) matched pre suf tmpl ++ suf
  end.



(** Patterns written as in a configuration file. *)
Fixpoint lit (s : string) : regex :=
  match s with
  | EmptyString => Empty
  | String c EmptyString => Char c
  | String c s' => Seq (Char c) (lit s')
  end.

End Regex.

(* ================================================================= *)
(** ** Data model *)

(** An entry of [config.endpoints]. *)
Record Endpoint : Type := mkEndpoint {
  pattern : Regex.regex;
  target : string;
  name : string
}.

(** What [utils.getConfig()] returns; only [endpoints] is read here. *)
Record Config : Type := mkConfig {
  endpoints : list Endpoint
}.

Definition headers_t := list (string * value).

(** The fields of the incoming message that the pipeline reads or sets.  A
    field that has not been set yet reads [undefined]. *)
Record Request : Type := mkRequest {
  url : string;
  in_headers : headers_t;
  startTime : value;
  userIP : value;
  requestId : value;
  tokenId : value;
  endpoint : value;
  proxyUrl : value
}.

(** The response to the client. *)
Record Response : Type := mkResponse {
  headers : headers_t;
  statusCode : option nat;
  body : option value;
  finished : bool
}.

(** The request that the proxy sends upstream. *)
Record ProxyReq : Type := mkProxyReq {
  p_url : string;
  path : string;
  p_headers : headers_t
}.

(** The options object handed to [proxy.web]. *)
Record ProxyOptions : Type := mkProxyOptions {
  o_target : string;
  ignorePath : bool;
  xfwd : bool;
  preserveHeaderKeyCase : bool;
  secure : bool
}.

Inductive LogEntry : Type :=
| LogError (err : value)
| LogRequest (r : Request) (upstream_status : nat).

(** The stages of the pipeline, and the events a run leaves behind.  The
    event list is ghost state: it records each stage as it is invoked and
    the assignment of [req.requestId]. *)
Inductive Stage : Type :=
| SIdentity | SBan | SEndpoint | SAuth | SRate | SForward.

Inductive Event : Type :=
| EStage (s : Stage)
| ERequestId (id : string).

(** Everything a run of the handler can touch.  [log] and [uuids] (the
    number of identifiers [uuid.v4] has handed out) belong to the process
    and outlive the request; the rest is per request. *)
Record World : Type := mkWorld {
  req : Request;
  res : Response;
  proxyReq : option ProxyReq;
  log : list LogEntry;
  uuids : nat;
  events : list Event
}.

(** Effectful code is a transformer of the world; a Node callback is a
    function from its arguments to such a transformer. *)
Definition M : Type := World -> World.

(* ----------------------------------------------------------------- *)
(** *** Field updates *)

Definition with_req (f : Request -> Request) : M := fun w =>
  mkWorld (f (req w)) (res w) (proxyReq w) (log w) (uuids w) (events w).

Definition with_res (f : Response -> Response) : M := fun w =>
  mkWorld (req w) (f (res w)) (proxyReq w) (log w) (uuids w) (events w).

Definition with_proxyReq (f : option ProxyReq -> option ProxyReq) : M := fun w =>
  mkWorld (req w) (res w) (f (proxyReq w)) (log w) (uuids w) (events w).

Definition logged (e : LogEntry) : M := fun w =>
  mkWorld (req w) (res w) (proxyReq w) (log w ++ [e])%list (uuids w) (events w).

Definition note (e : Event) : M := fun w =>
  mkWorld (req w) (res w) (proxyReq w) (log w) (uuids w) (events w ++ [e])%list.

Definition set_startTime (v : value) (r : Request) : Request :=
  mkRequest (url r) (in_headers r) v (userIP r) (requestId r) (tokenId r) (endpoint r) (proxyUrl r).
Definition set_userIP (v : value) (r : Request) : Request :=
  mkRequest (url r) (in_headers r) (startTime r) v (requestId r) (tokenId r) (endpoint r) (proxyUrl r).
Definition set_requestId (v : value) (r : Request) : Request :=
  mkRequest (url r) (in_headers r) (startTime r) (userIP r) v (tokenId r) (endpoint r) (proxyUrl r).
Definition set_tokenId (v : value) (r : Request) : Request :=
  mkRequest (url r) (in_headers r) (startTime r) (userIP r) (requestId r) v (endpoint r) (proxyUrl r).
Definition set_endpoint (v : value) (r : Request) : Request :=
  mkRequest (url r) (in_headers r) (startTime r) (userIP r) (requestId r) (tokenId r) v (proxyUrl r).
Definition set_proxyUrl (v : value) (r : Request) : Request :=
  mkRequest (url r) (in_headers r) (startTime r) (userIP r) (requestId r) (tokenId r) (endpoint r) v.

(* ----------------------------------------------------------------- *)
(** *** Header names and URLs *)

Definition lower_char (c : ascii) : ascii :=
  let n := nat_of_ascii c in
  if (65 <=? n) && (n <=? 90) then ascii_of_nat (n + 32) else c.

Fixpoint lower (s : string) : string :=
  match s with
  | EmptyString => EmptyString
  | String c s' => String (lower_char c) (lower s')
  end.

(** Header names are compared without regard to case, as Node does. *)
Definition same_header (a b : string) : bool := String.eqb (lower a) (lower b).

(** [setHeader(name, v)]: replaces the header of that name or adds it. *)
Fixpoint setHeader (key : string) (v : value) (hs : headers_t) : headers_t :=
  match hs with
  | [] => [(key, v)]
  | (k, v') :: rest =>
      if same_header k key then (key, v) :: rest else (k, v') :: setHeader key v rest
  end.

Fixpoint getHeader (key : string) (hs : headers_t) : option value :=
  match hs with
  | [] => None
  | (k, v) :: rest => if same_header k key then Some v else getHeader key rest
  end.

Definition res_setHeader (key : string) (v : value) (r : Response) : Response :=
  mkResponse (setHeader key v (headers r)) (statusCode r) (body r) (finished r).

Definition proxyReq_setHeader (key : string) (v : value) (p : ProxyReq) : ProxyReq :=
  mkProxyReq (p_url p) (path p) (setHeader key v (p_headers p)).

Module Url.

(** The characters of a URL scheme. *)
Definition scheme_char (c : ascii) : bool :=
  let n := nat_of_ascii c in
  ((97 <=? n) && (n <=? 122)) || ((65 <=? n) && (n <=? 90)) ||
  ((48 <=? n) && (n <=? 57)) ||
  Ascii.eqb c "+"%char || Ascii.eqb c "."%char || Ascii.eqb c "-"%char.

(** What follows [scheme://] at the start of the string, if the string
    starts that way.  [seen] tells whether a scheme character was read. *)
Fixpoint after_scheme_from (seen : bool) (s : string) : option string :=
  match s with
  | EmptyString => None
  | String c s' =>
      if scheme_char c then after_scheme_from true s'
      else if Ascii.eqb c ":"%char && seen then
        match s' with
        | String c1 (String c2 rest) =>
            if Ascii.eqb c1 "/"%char && Ascii.eqb c2 "/"%char then Some rest else None
        | _ => None
        end
      else None
  end.

Definition after_scheme (s : string) : option string := after_scheme_from false s.

(** Everything from the first [/] or [?] on. *)
Fixpoint after_host (s : string) : string :=
  match s with
  | EmptyString => EmptyString
  | String c s' =>
      if Ascii.eqb c "/"%char || Ascii.eqb c "?"%char then s else after_host s'
  end.

(** Path and query string of a URL: an absolute URL without its scheme,
    host and fragment (the path of a URL that has none being [/]), a
    relative URL without its fragment.  This is what [url.parse(u).path]
    gives for URLs made of characters that [url.parse] does not escape. *)
Definition path_of (u : string) : string :=
  let u := Str.before_char "#"%char u in
  match after_scheme u with
  | Some rest =>
      match after_host rest with
      | EmptyString => "/"
      | String c r => if Ascii.eqb c "?"%char then String "/"%char (String c r) else String c r
      end
  | None => u
  end.

(** The part of [path_of] before the query string, and the query string. *)
Definition pathname (u : string) : string := Str.before_char "?"%char (path_of u).

End Url.

(* ================================================================= *)
(** ** The environment of a request *)

(** The collaborators ([./src/bans], [./src/authentication],
    [./src/rateLimiting]) and the upstream server are outside this file.
    Each is handed [req], [res] and a callback; per request it either calls
    the callback back once, or ends the response itself and never calls
    back.  An [Env] fixes what each of them does for one request. *)
Inductive BanOutcome : Type :=
| BanCallback (err : value)
| BanResponds (status : nat) (b : value).

Inductive AuthOutcome : Type :=
| AuthCallback (err : value) (token : value)
| AuthResponds (status : nat) (b : value).

Inductive RateOutcome : Type :=
| RateCallback
| RateResponds (status : nat) (b : value).

Inductive UpstreamOutcome : Type :=
| UpstreamResponds (status : nat) (hs : headers_t) (b : value)
| UpstreamFails (err : value).

Record Env : Type := mkEnv {
  now : nat;
  clientIp : value;
  banGuard : BanOutcome;
  authenticator : AuthOutcome;
  rateLimiter : RateOutcome;
  upstream : UpstreamOutcome
}.

(** What is fixed when the process starts: the configuration and what the
    libraries do.  [random k] is the array of random bytes that the [k]-th
    call of [uuid.v4()] gets from its random source ([random k i] is its
    [i]-th entry, read as a byte); [url_path u] is [url.parse(u).path || ''];
    [outgoing_headers opts req] is the set of headers http-proxy gives the
    request it sends upstream (those of [req], with what its own passes add
    for [xfwd] and for the connection), before the [proxyReq] listeners
    run. *)
Record Process : Type := mkProcess {
  config : Config;
  random : nat -> nat -> nat;
  url_path : string -> string;
  outgoing_headers : ProxyOptions -> Request -> headers_t
}.

(** node-uuid's [v4]: the random bytes with the version and variant bits
    stamped on them, written as 32 hexadecimal digits in five groups. *)
Module Uuid.

Definition hex_digit (d : nat) : ascii :=
  nth d (list_ascii_of_string "0123456789abcdef") "0"%char.

(** [_byteToHex[b]] *)
Definition byteToHex (b : nat) : string :=
  String (hex_digit (b / 16)) (String (hex_digit (b mod 16)) EmptyString).

(** [rnds[6] = (rnds[6] & 0x0f) | 0x40; rnds[8] = (rnds[8] & 0x3f) | 0x80] *)
Definition stamp (rnds : nat -> nat) (i : nat) : nat :=
  if i =? 6 then Nat.lor (Nat.land (rnds 6) 15) 64
  else if i =? 8 then Nat.lor (Nat.land (rnds 8) 63) 128
  else rnds i.

(** [unparse(buf)] *)
Definition unparse (buf : nat -> nat) : string :=
  byteToHex (buf 0) ++ byteToHex (buf 1) ++ byteToHex (buf 2) ++ byteToHex (buf 3)
  ++ "-" ++ byteToHex (buf 4) ++ byteToHex (buf 5)
  ++ "-" ++ byteToHex (buf 6) ++ byteToHex (buf 7)
  ++ "-" ++ byteToHex (buf 8) ++ byteToHex (buf 9)
  ++ "-" ++ byteToHex (buf 10) ++ byteToHex (buf 11) ++ byteToHex (buf 12)
  ++ byteToHex (buf 13) ++ byteToHex (buf 14) ++ byteToHex (buf 15).

Definition v4 (rnds : nat -> nat) : string :=
  unparse (stamp (fun i => rnds i mod 256)).

End Uuid.

(** The result of the [k]-th call of [uuid.v4()]. *)
Definition uuid_v4 (P : Process) (k : nat) : string := Uuid.v4 (random P k).

Arguments uuid_v4 : simpl never.

(** The part of http-proxy's [common.js] that computes the path of the
    outgoing request. *)
Module HttpProxy.

(** [s.split(c)] *)
Fixpoint split (c : ascii) (s : string) : list string :=
  match s with
  | EmptyString => [EmptyString]
  | String c' s' =>
      if Ascii.eqb c c' then EmptyString :: split c s'
      else match split c s' with
           | x :: xs => String c' x :: xs
           | [] => [String c' EmptyString]
           end
  end.

(** [xs.join(sep)] *)
Fixpoint join (sep : string) (xs : list string) : string :=
  match xs with
  | [] => EmptyString
  | x :: rest =>
      match rest with
      | [] => x
      | _ => x ++ sep ++ join sep rest
      end
  end.

(** [s.replace(/\/+/g, '/')]: every run of slashes becomes one slash. *)
Fixpoint collapse_slashes (s : string) : string :=
  match s with
  | EmptyString => EmptyString
  | String c s' =>
      if Ascii.eqb c "/"%char then
        match s' with
        | String c' _ =>
            if Ascii.eqb c' "/"%char then collapse_slashes s'
            else String c (collapse_slashes s')
        | EmptyString => String c EmptyString
        end
      else String c (collapse_slashes s')
  end.

(** [s.replace(pat, by)] for a string [pat] and a replacement without [$]:
    the first occurrence of [pat] is replaced. *)
Fixpoint replace_first (pat by_ : string) (s : string) : string :=
  if String.prefix pat s then by_ ++ Str.drop (String.length pat) s
  else match s with
       | EmptyString => EmptyString
       | String c s' => String c (replace_first pat by_ s')
       end.

Definition nonempty (s : string) : bool :=
  match s with EmptyString => false | _ => true end.

(** [common.urlJoin(...args)]: the last argument gives up its query
    string, the arguments that are not empty are joined with a slash, runs
    of slashes are collapsed (the two of [http://] and [https://] put
    back), and the query string is appended again. *)
Definition urlJoin (args : list string) : string :=
  let lastSegs := split "?"%char (last args EmptyString) in
  let args' := (removelast args ++ [hd EmptyString lastSegs])%list in
  let joined :=
    replace_first "https:/" "https://"
      (replace_first "http:/" "http://"
         (collapse_slashes (join "/" (filter nonempty args')))) in
  join "?" (joined :: tl lastSegs).

(** The path of the outgoing request: [urlJoin] of the path of the target
    and of the path of the incoming URL; the request object of Node takes
    [/] when it is given an empty path. *)
Definition outgoing_path (targetPath outgoingPath : string) : string :=
  let p := urlJoin [targetPath; outgoingPath] in
  if nonempty p then p else "/".

End HttpProxy.

Arguments HttpProxy.urlJoin : simpl never.
Arguments HttpProxy.outgoing_path : simpl never.


(* ================================================================= *)
(** ** utils and the collaborators *)

(** Modelled from the spec: [utils.abort(req, res, status, body)], which is
    not among the sources.  It writes the final response: the status, the
    body, and the end of the response. *)
Definition abort (status : nat) (b : value) : M :=
  with_res (fun r => mkResponse (headers r) (Some status) (Some b) true).

(** Modelled from the spec: [utils.logger.error(err)] adds the error to the
    log. *)
Definition logger_error (err : value) : M := logged (LogError err).

(** Modelled from the spec: [utils.logRequest(req, proxyRes)] adds a record
    of the request and of the upstream status to the log. *)
Definition logRequest (upstream_status : nat) : M := fun w =>
  logged (LogRequest (req w) upstream_status) w.

(** Modelled from the spec: [utils.getUserIp(req)], the client address or a
    falsy value when there is none. *)
Definition getUserIp (E : Env) (r : Request) : value := clientIp E.

(** Modelled from the spec: [bans.checkBan(req, res, callback)]. *)
Definition checkBan (E : Env) (callback : value -> M) : M := fun w =>
  let w := note (EStage SBan) w in
  match banGuard E with
  | BanCallback err => callback err w
  | BanResponds status b => abort status b w
  end.

(** Modelled from the spec:
    [authentication.authenticate(endpoint, req, res, callback)]. *)
Definition authenticate (E : Env) (e : Endpoint) (callback : value -> value -> M) : M :=
  fun w =>
  let w := note (EStage SAuth) w in
  match authenticator E with
  | AuthCallback err token => callback err token w
  | AuthResponds status b => abort status b w
  end.

(** Modelled from the spec:
    [rateLimiting.rateLimit(redisclient, endpoint, tokenId, req, res, callback)]. *)
Definition rateLimit (E : Env) (e : Endpoint) (token : value) (callback : M) : M :=
  fun w =>
  let w := note (EStage SRate) w in
  match rateLimiter E with
  | RateCallback => callback w
  | RateResponds status b => abort status b w
  end.

(* ================================================================= *)
(** ** gateway.js *)

(** [getEndpoint(url)]: the loop over [config.endpoints] returns at the
    first entry whose pattern tests true; falling off the end of the loop
    returns [undefined]. *)
Fixpoint getEndpoint_loop (es : list Endpoint) (u : string) : option Endpoint :=
  match es with
  | [] => None
  | e :: rest =>
      if Regex.test (pattern e) u then Some e else getEndpoint_loop rest u
  end.

Definition getEndpoint (cfg : Config) (u : string) : option Endpoint :=
  getEndpoint_loop (endpoints cfg) u.

(** [proxy.on('error', ...)] *)
Definition on_error (err : value) : M := logger_error err.

(** [proxy.on('proxyReq', ...)]; the request being sent upstream is
    [proxyReq w]. *)
Definition on_proxyReq : M := fun w =>
  let w := with_req (set_proxyUrl (match proxyReq w with
                                   | Some p => VStr (path p)
                                   | None => VUndefined
                                   end)) w in
  let w := with_proxyReq
             (option_map (proxyReq_setHeader "X-Request-ID" (requestId (req w)))) w in
  with_res (res_setHeader "X-Request-ID" (requestId (req w))) w.

(** [proxy.on('proxyRes', ...)] *)
Definition on_proxyRes (upstream_status : nat) : M := logRequest upstream_status.

(** [errorReq(req, res, err)] *)
Definition errorReq (err : value) : M := fun w =>
  let w := logger_error err w in
  abort 500 (VObj [("message", VStr "Internal Server Error")]) w.

(** [res.setHeader] for each header of a list, in order. *)
Definition relayHeaders (hs : headers_t) (r : Response) : Response :=
  fold_left (fun r kv => res_setHeader (fst kv) (snd kv) r) hs r.

(** The part of http-proxy that [proxy.web(req, res, options)] goes through.
    [setupOutgoing] prepares the outgoing request: it goes to the target;
    its path is joined from the path of the target and the path of the
    incoming URL, the latter left out when [ignorePath] is set; its headers
    are those the library prepares.  The library then emits [proxyReq].
    When the upstream answers, it emits [proxyRes], writes the headers of
    the answer onto the response with [res.setHeader], and relays status
    and body; [hs] in [UpstreamResponds status hs b] are the headers so
    written.  When the upstream cannot be reached it emits [error] and
    leaves the response to the listener. *)
Definition setupOutgoing (P : Process) (opts : ProxyOptions) (r : Request) : ProxyReq :=
  let targetPath := url_path P (o_target opts) in
  let outgoingPath := if ignorePath opts then EmptyString else url_path P (url r) in
  mkProxyReq (o_target opts)
             (HttpProxy.outgoing_path targetPath outgoingPath)
             (outgoing_headers P opts r).

Definition proxy_web (P : Process) (E : Env) (opts : ProxyOptions) : M := fun w =>
  let w := note (EStage SForward) w in
  let w := with_proxyReq (fun _ => Some (setupOutgoing P opts (req w))) w in
  let w := on_proxyReq w in
  match upstream E with
  | UpstreamFails err => on_error err w
  | UpstreamResponds status hs b =>
      let w := on_proxyRes status w in
      let w := with_res (relayHeaders hs) w in
      with_res (fun r => mkResponse (headers r) (Some status) (Some b) true) w
  end.

(** [uuid.v4()]: the next identifier of the generator. *)
Definition uuid_next (P : Process) (w : World) : string * World :=
  (uuid_v4 P (uuids w),
   mkWorld (req w) (res w) (proxyReq w) (log w) (S (uuids w)) (events w)).

(** The request listener given to [http.createServer]. *)
Definition handler (P : Process) (E : Env) : M := fun w =>
  let w := with_req (set_startTime (VNum (now E))) w in
  let w := note (EStage SIdentity) w in
  let w := with_req (set_userIP (getUserIp E (req w))) w in
  if negb (truthy (userIP (req w))) then
    abort 500 (VObj [("message", VStr "Internal Server Error")]) w
  else
    checkBan E (fun err w =>
      if truthy err then errorReq err w else
      let (id, w) := uuid_next P w in
      let w := with_req (set_requestId (VStr id)) w in
      let w := note (ERequestId id) w in
      let w := note (EStage SEndpoint) w in
      match getEndpoint (config P) (url (req w)) with
      | None => abort 404 (VObj [("message", VStr "Route not found")]) w
      | Some endpoint =>
          let target := Regex.replace (url (req w)) (pattern endpoint) (target endpoint) in
          authenticate E endpoint (fun err tokenId w =>
            if truthy err then errorReq err w else
            let w := with_req (set_tokenId tokenId) w in
            rateLimit E endpoint tokenId (fun w =>
              let w := with_req (set_endpoint (VStr (name endpoint))) w in
              proxy_web P E (mkProxyOptions target true true true false) w) w) w
      end) w.

(* ================================================================= *)
(** ** The server *)

(** The world in which the listener starts on a new incoming message: a
    fresh [req] and [res], the log and the generator as the process has
    them. *)
Definition accept (u : string) (hs : headers_t) (lg : list LogEntry) (n : nat) : World :=
  mkWorld (mkRequest u hs VUndefined VUndefined VUndefined VUndefined VUndefined VUndefined)
          (mkResponse [] None None false)
          None lg n [].

(** An incoming message with the behaviour of its environment. *)
Record Incoming : Type := mkIncoming {
  i_env : Env;
  i_url : string;
  i_headers : headers_t
}.

Definition handle (P : Process) (i : Incoming) (lg : list LogEntry) (n : nat) : World :=
  handler P (i_env i) (accept (i_url i) (i_headers i) lg n).

(** The requests of a process, one after the other; the result lists the
    final world of each.  Requests share the log and the generator and
    nothing else. *)
Fixpoint serve (P : Process) (rs : list Incoming) (lg : list LogEntry) (n : nat)
  : list World :=
  match rs with
  | [] => []
  | i :: rest =>
      let w := handle P i lg n in
      w :: serve P rest (log w) (uuids w)
  end.

(** The stages a run went through, in the order of their invocation. *)
Fixpoint stages (es : list Event) : list Stage :=
  match es with
  | [] => []
  | EStage s :: rest => s :: stages rest
  | ERequestId _ :: rest => stages rest
  end.

Definition pipeline_order : list Stage :=
  [SIdentity; SBan; SEndpoint; SAuth; SRate; SForward].

(** Whether a stage, if reached, fails for this request. *)
Definition stage_fails (P : Process) (i : Incoming) (s : Stage) : bool :=
  match s with
  | SIdentity => negb (truthy (clientIp (i_env i)))
  | SBan =>
      match banGuard (i_env i) with
      | BanCallback err => truthy err
      | BanResponds _ _ => true
      end
  | SEndpoint =>
      match getEndpoint (config P) (i_url i) with Some _ => false | None => true end
  | SAuth =>
      match authenticator (i_env i) with
      | AuthCallback err _ => truthy err
      | AuthResponds _ _ => true
      end
  | SRate =>
      match rateLimiter (i_env i) with
      | RateCallback => false
      | RateResponds _ _ => true
      end
  | SForward =>
      match upstream (i_env i) with
      | UpstreamResponds _ _ _ => false
      | UpstreamFails _ => true
      end
  end.

(* ================================================================= *)
(** ** Vocabulary of the properties *)

(** The two responses the gateway itself writes. *)
Definition internal_server_error : value :=
  VObj [("message", VStr "Internal Server Error")].
Definition route_not_found : value :=
  VObj [("message", VStr "Route not found")].

(** A stage was invoked in a run. *)
Definition invoked (s : Stage) (w : World) : Prop := In s (stages (events w)).

(** The final response has been written. *)
Definition responded (w : World) : Prop :=
  finished (res w) = true /\ statusCode (res w) <> None.

(** The status an error value declares, when it is an object with a numeric
    [status]. *)
Definition declared_status (err : value) : option nat :=
  match get_prop err "status" with
  | VNum n => Some n
  | _ => None
  end.

(** The request identifier on each leg of a forwarded request. *)
Definition upstream_request_id (w : World) : option value :=
  match proxyReq w with
  | Some p => getHeader "X-Request-ID" (p_headers p)
  | None => None
  end.

Definition client_request_id (w : World) : option value :=
  getHeader "X-Request-ID" (headers (res w)).

(* ================================================================= *)
(** ** Sample configuration and requests *)

Module Sample.

Import Regex.

(** The pattern [/api/users/] followed by a group capturing [.*], and
    two more. *)
Definition users_pat : regex := Seq (lit "/api/users/") (Group 1 (Star AnyChar)).
Definition api_pat : regex := Seq (lit "/api/") (Group 1 (Star AnyChar)).
Definition beta_pat : regex :=
  Seq (lit "/api/") (Seq (Star AnyChar) (lit "beta=1")).

Definition users : Endpoint := mkEndpoint users_pat "http://users-svc/$1" "users".
Definition api : Endpoint := mkEndpoint api_pat "http://api-svc/v1/$1" "api".
Definition beta : Endpoint := mkEndpoint beta_pat "http://beta-svc$&" "beta".

Definition cfg : Config := mkConfig [beta; users; api].

(** A random source that counts: the [i]-th byte of the [k]-th call is
    [16 * k + i]. *)
Definition counting (k i : nat) : nat := 16 * k + i.

(** A stand-in for the headers http-proxy prepares: those of the incoming
    request, and the connection closed. *)
Definition prepared (opts : ProxyOptions) (r : Request) : headers_t :=
  setHeader "connection" (VStr "close") (in_headers r).

Definition proc : Process := mkProcess cfg counting Url.path_of prepared.

Definition unauthorized : value :=
  VObj [("status", VNum 401); ("message", VStr "Unauthorized")].
Definition refused : value := VObj [("code", VStr "ECONNREFUSED")].
Definition ok_body : value := VStr "{}".
Definition ok_headers : headers_t := [("content-type", VStr "application/json")].

Definition env_ok : Env :=
  mkEnv 0 (VStr "10.0.0.7") (BanCallback VUndefined)
        (AuthCallback VNull (VStr "token-1")) RateCallback
        (UpstreamResponds 200 ok_headers ok_body).

Definition env_no_ip : Env :=
  mkEnv 0 VUndefined (BanCallback VUndefined)
        (AuthCallback VNull (VStr "token-1")) RateCallback
        (UpstreamResponds 200 ok_headers ok_body).

Definition env_banned : Env :=
  mkEnv 0 (VStr "10.0.0.7") (BanResponds 403 (VObj [("message", VStr "Forbidden")]))
        (AuthCallback VNull (VStr "token-1")) RateCallback
        (UpstreamResponds 200 ok_headers ok_body).

Definition env_auth_error : Env :=
  mkEnv 0 (VStr "10.0.0.7") (BanCallback VUndefined)
        (AuthCallback unauthorized VUndefined) RateCallback
        (UpstreamResponds 200 ok_headers ok_body).

Definition env_upstream_down : Env :=
  mkEnv 0 (VStr "10.0.0.7") (BanCallback VUndefined)
        (AuthCallback VNull (VStr "token-1")) RateCallback
        (UpstreamFails refused).

Definition get (E : Env) (u : string) : Incoming := mkIncoming E u [].

Definition r_ok : Incoming := get env_ok "/api/users/42?x=1".
Definition r_no_ip : Incoming := get env_no_ip "/api/users/42?x=1".
Definition r_banned : Incoming := get env_banned "/api/users/42?x=1".
Definition r_auth_error : Incoming := get env_auth_error "/api/users/42?x=1".
Definition r_upstream_down : Incoming := get env_upstream_down "/api/users/42?x=1".
Definition r_beta : Incoming := get env_ok "/api/users/42?beta=1".
Definition r_nothing : Incoming := get env_ok "/nothing".



End Sample.

(* ================================================================= *)
(** ** Further vocabulary for the pipeline *)

(** The request gets past identity resolution and the ban check. *)
Definition passes_ban (P : Process) (i : Incoming) : bool :=
  negb (stage_fails P i SIdentity) && negb (stage_fails P i SBan).

(** The number of identifiers the generator has handed out once the
    requests [rs] have been served. *)
Definition final_uuids (P : Process) (rs : list Incoming) (lg : list LogEntry)
           (n : nat) : nat :=
  last (map uuids (serve P rs lg n)) n.

(** The [X-Request-ID] the upstream's answer brings along, if any: the
    last header of that name among those written onto the response. *)
Fixpoint last_header (key : string) (hs : headers_t) : option value :=
  match hs with
  | [] => None
  | (k, v) :: rest =>
      match last_header key rest with
      | Some v' => Some v'
      | None => if same_header k key then Some v else None
      end
  end.

Definition upstream_sent_id (E : Env) : option value :=
  match upstream E with
  | UpstreamResponds _ hs _ => last_header "X-Request-ID" hs
  | UpstreamFails _ => None
  end.

(** A replacement template without [$] has nothing to expand. *)
Fixpoint no_dollar (tmpl : string) : bool :=
  match tmpl with
  | EmptyString => true
  | String c rest => negb (Ascii.eqb c "$"%char) && no_dollar rest
  end.

(* ================================================================= *)
(** ** The login form (the [Login] component) *)

(** The component keeps the two fields in its state, stores what is typed
    with the surrounding white space removed, and hands both to
    [props.onLoginClick] when the button is tapped.  What is typed is any
    JavaScript string: a sequence of UTF-16 code units. *)
Module Login.

Definition text : Type := list N.

(** The code units that [trim] removes: the white space and the line
    terminators of the language (tab, line feed, vertical tab, form feed,
    carriage return, space, no-break space, U+1680, U+2000 to U+200A,
    U+2028, U+2029, U+202F, U+205F, U+3000 and U+FEFF). *)
Definition is_space (c : N) : bool :=
  (N.leb 9 c && N.leb c 13) || N.eqb c 32 || N.eqb c 160 || N.eqb c 5760 ||
  (N.leb 8192 c && N.leb c 8202) || N.eqb c 8232 || N.eqb c 8233 ||
  N.eqb c 8239 || N.eqb c 8287 || N.eqb c 12288 || N.eqb c 65279.

Fixpoint trim_start (s : text) : text :=
  match s with
  | [] => []
  | c :: s' => if is_space c then trim_start s' else s
  end.

Fixpoint trim_end (s : text) : text :=
  match s with
  | [] => []
  | c :: s' =>
      match trim_end s' with
      | [] => if is_space c then [] else [c]
      | t => c :: t
      end
  end.

(** [value.trim()] *)
Definition trim (s : text) : text := trim_end (trim_start s).

Definition all_space (s : text) : bool := forallb is_space s.

Definition starts_with_space (s : text) : bool :=
  match s with
  | [] => false
  | c :: _ => is_space c
  end.

Fixpoint ends_with_space (s : text) : bool :=
  match s with
  | [] => false
  | c :: s' =>
      match s' with
      | [] => is_space c
      | _ => ends_with_space s'
      end
  end.

(** No white space at either end. *)
Definition trimmed (s : text) : bool :=
  negb (starts_with_space s) && negb (ends_with_space s).

(** [this.state] *)
Record State : Type := mkState {
  username : text;
  password : text
}.

(** The state set by the constructor. *)
Definition initial : State := mkState [] [].

(** [updateUsername(e, value)]: [setState] replaces the one key it is given
    and keeps the other. *)
Definition updateUsername (value : text) (st : State) : State :=
  mkState (trim value) (password st).

(** [updatePassword(e, value)] *)
Definition updatePassword (value : text) (st : State) : State :=
  mkState (username st) (trim value).

(** [handleLogin()]: the arguments of the call of [props.onLoginClick]. *)
Definition handleLogin (st : State) : text * text :=
  (username st, password st).

(** What the user does: types into one of the two fields ([onChange] gives
    the new value of the field) or taps the button. *)
Inductive Action : Type :=
| ChangeUsername (value : text)
| ChangePassword (value : text)
| TapLogin.

(** The component under a sequence of actions: its state at the end, and
    the calls of [onLoginClick] made on the way, in order. *)
Fixpoint run (st : State) (acts : list Action) : State * list (text * text) :=
  match acts with
  | [] => (st, [])
  | ChangeUsername v :: rest => run (updateUsername v st) rest
  | ChangePassword v :: rest => run (updatePassword v st) rest
  | TapLogin :: rest =>
      let (st', calls) := run st rest in
      (st', handleLogin st :: calls)
  end.

(** The content of a field after the actions: what was typed last into it,
    trimmed, or [d] when nothing was typed. *)
Fixpoint last_username (acts : list Action) (d : text) : text :=
  match acts with
  | [] => d
  | ChangeUsername v :: rest => last_username rest (trim v)
  | _ :: rest => last_username rest d
  end.

Fixpoint last_password (acts : list Action) (d : text) : text :=
  match acts with
  | [] => d
  | ChangePassword v :: rest => last_password rest (trim v)
  | _ :: rest => last_password rest d
  end.

(** The code units of an ASCII string. *)
Fixpoint of_string (s : string) : text :=
  match s with
  | EmptyString => []
  | String c s' => N.of_nat (nat_of_ascii c) :: of_string s'
  end.

End Login.

(* ================================================================= *)
(** ** More sample requests *)

Module Scenario.

(** The ban check itself fails (its store cannot be reached). *)
Definition store_down : value := VObj [("code", VStr "ECONNRESET")].

Definition env_ban_error : Env :=
  mkEnv 0 (VStr "10.0.0.7") (BanCallback store_down)
        (AuthCallback VNull (VStr "token-1")) RateCallback
        (UpstreamResponds 200 Sample.ok_headers Sample.ok_body).

Definition r_ban_error : Incoming := Sample.get env_ban_error "/api/users/42?x=1".

(** A client that sends a request identifier of its own. *)
Definition r_forged_id : Incoming :=
  mkIncoming Sample.env_ok "/api/users/42?x=1"
             [("x-request-id", VStr "forged"); ("accept", VStr "text/html")].





(** The users pattern, anchored at the start. *)
Definition anchored_users_pat : Regex.regex := Regex.Seq Regex.Bol Sample.users_pat.

End Scenario.

(* ================================================================= *)
(** ** Properties of the string and pattern operations *)

Section StringFacts.





End StringFacts.

Section MatcherFacts.

Import Regex.









End MatcherFacts.

Section PatternExamples.

Import Regex.

Example replace_keeps_text_around_match :
  replace "xx/api/users/42?x=1" Sample.users_pat "http://users-svc/$1"
  = "xxhttp://users-svc/42?x=1".
Proof. reflexivity. Qed.

Example replace_without_match :
  replace "/health" Sample.users_pat "http://users-svc/$1" = "/health".
Proof. reflexivity. Qed.

Example replace_template_escapes :
  replace "/api/users/7" Sample.users_pat "[$$|$&|$1|$2|$01]"
  = "[$|/api/users/7|7|$2|7]".
Proof. reflexivity. Qed.

Example replace_leftmost_greedy :
  replace "/a/b/c" (Seq (Star (Alt (Char "a") (Char "/"))) (Char "b")) "[$`|$']"
  = "[|/c]/c".
Proof. reflexivity. Qed.

Example star_forgets_inner_captures :
  exec (Seq (Star (Alt (Group 1 (Char "a")) (Char "b"))) Eol) "ab"
  = Some (MatchResult 0 2 []).
Proof. reflexivity. Qed.

Example anchored_pattern :
  test (Seq Bol (lit "/api/")) "/v2/api/" = false /\
  test (lit "/api/") "/v2/api/" = true.
Proof. split; reflexivity. Qed.

End PatternExamples.

(* ================================================================= *)
(** ** Properties of the pipeline *)

(** Unfolds a run of the handler into its cases. *)
Ltac unfold_run :=
  unfold handle, handler, accept, getUserIp, checkBan, authenticate, rateLimit,
    errorReq, proxy_web, on_proxyReq, on_proxyRes, on_error, logRequest,
    logger_error, abort, uuid_next, setupOutgoing, invoked, responded,
    client_request_id, upstream_request_id, upstream_sent_id;
  cbn [i_env i_url i_headers now clientIp banGuard authenticator rateLimiter upstream].

Section GetEndpointFacts.

Lemma getEndpoint_loop_first (es : list Endpoint) (u : string) (e : Endpoint) :
  getEndpoint_loop es u = Some e <->
  exists before after,
    es = (before ++ e :: after)%list /\
    Regex.test (pattern e) u = true /\
    forall e', In e' before -> Regex.test (pattern e') u = false.
Proof.
  induction es as [|x es IH]; simpl.
  - split; [discriminate|]. intros (b & a & H & _). now destruct b.
  - destruct (Regex.test (pattern x) u) eqn:Hx.
    + split.
      * intros [= ->]. exists [], es. simpl. repeat split; [assumption | tauto].
      * intros (b & a & H & Ht & Hb). destruct b as [|y b]; simpl in H.
        -- now injection H as -> _.
        -- injection H as -> _. rewrite (Hb y) in Hx; [discriminate | now left].
    + rewrite IH. split.
      * intros (b & a & -> & Ht & Hb). exists (x :: b), a. simpl.
        repeat split; [assumption|]. intros e' [<- | Hin]; auto.
      * intros (b & a & H & Ht & Hb). destruct b as [|y b]; simpl in H.
        -- injection H as -> _. congruence.
        -- injection H as -> ->. exists b, a. repeat split; [assumption|].
           intros e' Hin. apply Hb. now right.
Qed.

Lemma getEndpoint_loop_none (es : list Endpoint) (u : string) :
  getEndpoint_loop es u = None <->
  forall e, In e es -> Regex.test (pattern e) u = false.
Proof.
  induction es as [|x es IH]; simpl.
  - split; [intros _ e [] | reflexivity].
  - destruct (Regex.test (pattern x) u) eqn:Hx.
    + split; [discriminate|]. intros H. rewrite (H x) in Hx; [discriminate | now left].
    + rewrite IH. split.
      * intros H e [<- | Hin]; auto.
      * intros H e Hin. apply H. now right.
Qed.

End GetEndpointFacts.

Section PipelineFacts.

Variable P : Process.

(** The stages of a run, by the outcome of each gate. *)
Lemma stages_of_run (i : Incoming) (lg : list LogEntry) (n : nat) :
  let w := handle P i lg n in
  let st := stages (events w) in
  if stage_fails P i SIdentity then st = [SIdentity] /\ responded w
  else if stage_fails P i SBan then st = [SIdentity; SBan] /\ responded w
  else if stage_fails P i SEndpoint then st = [SIdentity; SBan; SEndpoint] /\ responded w
  else if stage_fails P i SAuth then st = [SIdentity; SBan; SEndpoint; SAuth] /\ responded w
  else if stage_fails P i SRate then st = [SIdentity; SBan; SEndpoint; SAuth; SRate] /\ responded w
  else st = pipeline_order.
Proof.
  destruct i as [[t ip ban auth rate up] u hs].
  unfold stage_fails. unfold_run. cbn.
  destruct (truthy ip) eqn:Hip; cbn; [|repeat split; congruence].
  destruct ban as [berr|bs bb]; cbn; [|repeat split; congruence].
  destruct (truthy berr) eqn:Hb; cbn; [repeat split; congruence|].
  destruct (getEndpoint (config P) u) as [e|] eqn:He; cbn; [|repeat split; congruence].
  destruct auth as [aerr tok|s b]; cbn; [|repeat split; congruence].
  destruct (truthy aerr) eqn:Ha; cbn; [repeat split; congruence|].
  destruct rate as [|s b]; cbn; [|repeat split; congruence].
  destruct up; reflexivity.
Qed.


(** C1, as amended: in every run the stages are invoked in the order
    identity resolution, ban check, endpoint resolution, authentication,
    rate limiting, forwarding, each at most once; a stage that fails is the
    last one invoked; when the failing stage comes before forwarding the
    final response has been written; and a run in which no invoked stage
    fails goes through all six. *)
Theorem pipeline_order_short_circuit (i : Incoming) (lg : list LogEntry) (n : nat) :
  let w := handle P i lg n in
  let st := stages (events w) in
  (exists rest, (st ++ rest)%list = pipeline_order) /\
  NoDup st /\
  (forall s, invoked s w -> stage_fails P i s = true ->
             exists before, st = (before ++ [s])%list) /\
  (forall s, invoked s w -> stage_fails P i s = true -> s <> SForward ->
             responded w) /\
  ((forall s, invoked s w -> stage_fails P i s = false) -> st = pipeline_order).
Proof.
  intros w st. pose proof (stages_of_run i lg n) as H. cbv zeta in H.
  fold w in H. fold st in H. unfold invoked. fold st.
  destruct (stage_fails P i SIdentity) eqn:F1;
    [| destruct (stage_fails P i SBan) eqn:F2;
       [| destruct (stage_fails P i SEndpoint) eqn:F3;
          [| destruct (stage_fails P i SAuth) eqn:F4;
             [| destruct (stage_fails P i SRate) eqn:F5 ]]]];
    try (match type of H with _ /\ _ => destruct H as [H Hr] end);
    rewrite H; unfold pipeline_order.
  all: split; [eexists; simpl; reflexivity|].
  all: split; [repeat constructor; simpl; intuition discriminate|].
  all: split; [intros s Hin Hf; simpl in Hin;
               repeat (destruct Hin as [<- | Hin]; [try congruence|]); try contradiction;
               match goal with |- exists b, ?l = _ => exists (removelast l); reflexivity end|].
  all: split;
    [intros s Hin Hf Hs; simpl in Hin; try assumption;
     repeat (destruct Hin as [<- | Hin]; [congruence|]); contradiction|].
  all: try (intros _; reflexivity).
  all: intros Hall; simpl in Hall.
  - rewrite Hall in F1; [discriminate | tauto].
  - rewrite Hall in F2; [discriminate | tauto].
  - rewrite Hall in F3; [discriminate | tauto].
  - rewrite Hall in F4; [discriminate | tauto].
  - rewrite Hall in F5; [discriminate | tauto].
Qed.


(** C2: when the client address cannot be resolved the response is the
    fixed 500 with the generic message, and neither the ban guard, the
    authenticator, the rate limiter nor the proxy is invoked. *)
Theorem unresolved_identity_aborts (i : Incoming) (lg : list LogEntry) (n : nat) :
  truthy (clientIp (i_env i)) = false ->
  let w := handle P i lg n in
  statusCode (res w) = Some 500 /\
  body (res w) = Some internal_server_error /\
  finished (res w) = true /\
  ~ invoked SBan w /\ ~ invoked SAuth w /\ ~ invoked SRate w /\
  ~ invoked SForward w /\ proxyReq w = None.
Proof.
  destruct i as [[t ip ban auth rate up] u hs]. cbn. intros Hip.
  unfold_run. cbn. rewrite Hip. cbn.
  repeat split; try reflexivity; intuition discriminate.
Qed.

(** Where the request identifier comes from: a run that stops at identity
    resolution or at the ban check draws none; any other run draws exactly
    one, right after the ban check. *)
Lemma request_id_cases (i : Incoming) (lg : list LogEntry) (n : nat) :
  let w := handle P i lg n in
  (stage_fails P i SIdentity = true /\ events w = [EStage SIdentity] /\
   requestId (req w) = VUndefined /\ headers (res w) = [] /\ uuids w = n)
  \/
  (stage_fails P i SIdentity = false /\ stage_fails P i SBan = true /\
   events w = [EStage SIdentity; EStage SBan] /\
   requestId (req w) = VUndefined /\ headers (res w) = [] /\ uuids w = n)
  \/
  (stage_fails P i SIdentity = false /\ stage_fails P i SBan = false /\
   requestId (req w) = VStr (uuid_v4 P n) /\ uuids w = S n /\
   exists rest,
     events w =
     ([EStage SIdentity; EStage SBan; ERequestId (uuid_v4 P n); EStage SEndpoint]
        ++ rest)%list /\
     forall id, ~ In (ERequestId id) rest).
Proof.
  destruct i as [[t ip ban auth rate up] u hs].
  unfold stage_fails. unfold_run. cbn.
  destruct (truthy ip) eqn:Hip; cbn; [|left; repeat split; reflexivity].
  right.
  destruct ban as [berr|bs bb]; cbn; [|left; repeat split; reflexivity].
  destruct (truthy berr) eqn:Hb; cbn; [left; repeat split; reflexivity|].
  right.
  destruct (getEndpoint (config P) u) as [e|] eqn:He; cbn;
    [destruct auth as [aerr tok|s b]; cbn;
     [destruct (truthy aerr) eqn:Ha; cbn;
      [|destruct rate as [|s b]; cbn; [destruct up as [us uh ub|uerr]; cbn|]]|]|].
  all: repeat split; try reflexivity.
  all: eexists; split; [reflexivity | simpl; intuition discriminate].
Qed.

(** C3: a request that the ban guard does not let pass (the guard answers
    it itself, or reports an error) gets no request identifier: none is
    drawn, [req.requestId] stays undefined, the response has no
    [X-Request-ID] header, and authentication, rate limiting and forwarding
    are not invoked.  An identifier is assigned exactly when the ban check
    is reached and passes, and then right after the ban check and before
    endpoint resolution. *)
Theorem ban_denial_untraced (i : Incoming) (lg : list LogEntry) (n : nat) :
  let w := handle P i lg n in
  (stage_fails P i SBan = true ->
     requestId (req w) = VUndefined /\
     client_request_id w = None /\
     uuids w = n /\
     (forall id, ~ In (ERequestId id) (events w)) /\
     ~ invoked SAuth w /\ ~ invoked SRate w /\ ~ invoked SForward w) /\
  (forall id,
     In (ERequestId id) (events w) <->
     (stage_fails P i SIdentity = false /\ stage_fails P i SBan = false /\
      id = uuid_v4 P n)) /\
  (forall id,
     In (ERequestId id) (events w) ->
     requestId (req w) = VStr id /\
     exists rest,
       events w =
       ([EStage SIdentity; EStage SBan; ERequestId id; EStage SEndpoint] ++ rest)%list).
Proof.
  intros w. pose proof (request_id_cases i lg n) as H. cbv zeta in H. fold w in H.
  unfold invoked, client_request_id.
  destruct H as [(F1 & Hev & Hid & Hh & Hu)
                | [(F1 & F2 & Hev & Hid & Hh & Hu)
                  | (F1 & F2 & Hid & Hu & rest & Hev & Hrest)]];
    rewrite Hev; rewrite ?F1, ?F2, ?Hh; simpl.
  - repeat split; auto; try (intuition discriminate).
  - repeat split; auto; try (intuition discriminate).
  - split; [discriminate|]. split; intros id.
    + split.
      * intros [H|[H|[H|[H|H]]]]; try discriminate.
        -- injection H as <-. auto.
        -- now apply Hrest in H.
      * intros (_ & _ & ->). auto.
    + intros [H|[H|[H|[H|H]]]]; try discriminate.
      * injection H as <-. split; [assumption | now exists rest].
      * now apply Hrest in H.
Qed.


(** C4, as amended: when the authenticator of a resolved endpoint calls
    back with an error, the pipeline logs the error and answers with its own
    fixed 500 and generic message, whatever the error declares; the rate
    limiter and the proxy are never called. *)
Theorem authenticator_error_is_internal_error
        (i : Incoming) (lg : list LogEntry) (n : nat) (err token : value) :
  stage_fails P i SIdentity = false ->
  stage_fails P i SBan = false ->
  stage_fails P i SEndpoint = false ->
  authenticator (i_env i) = AuthCallback err token ->
  truthy err = true ->
  let w := handle P i lg n in
  statusCode (res w) = Some 500 /\
  body (res w) = Some internal_server_error /\
  finished (res w) = true /\
  log w = (lg ++ [LogError err])%list /\
  invoked SAuth w /\ ~ invoked SRate w /\ ~ invoked SForward w /\
  proxyReq w = None.
Proof.
  destruct i as [[t ip ban auth rate up] u hs].
  unfold stage_fails. unfold_run. cbn.
  intros Hip Hban He -> Herr.
  destruct (truthy ip); [cbn | discriminate].
  destruct ban as [berr|]; [cbn | discriminate].
  rewrite Hban.
  destruct (getEndpoint (config P) u) as [e|]; [cbn | discriminate].
  rewrite Herr. cbn.
  repeat split; try reflexivity; intuition discriminate.
Qed.

(** C9: a request whose URL no endpoint pattern matches never reaches the
    authenticator, the rate limiter or the proxy; once it has passed
    identity resolution and the ban check, it is answered with the fixed
    404 and the message [Route not found]. *)
Theorem unmatched_url_is_route_not_found
        (i : Incoming) (lg : list LogEntry) (n : nat) :
  (forall e, In e (endpoints (config P)) ->
             Regex.test (pattern e) (i_url i) = false) ->
  let w := handle P i lg n in
  ~ invoked SAuth w /\ ~ invoked SRate w /\ ~ invoked SForward w /\
  proxyReq w = None /\
  (stage_fails P i SIdentity = false -> stage_fails P i SBan = false ->
   statusCode (res w) = Some 404 /\
   body (res w) = Some route_not_found /\
   finished (res w) = true /\
   invoked SEndpoint w).
Proof.
  intros Hnone. apply getEndpoint_loop_none in Hnone.
  destruct i as [[t ip ban auth rate up] u hs].
  unfold stage_fails. unfold_run. cbn in *.
  unfold getEndpoint. rewrite Hnone.
  destruct (truthy ip); cbn; [|repeat split; intuition discriminate].
  destruct ban as [berr|]; cbn; [|repeat split; intuition discriminate].
  destruct (truthy berr); cbn; repeat split; intuition discriminate.
Qed.

End PipelineFacts.

Section HeaderFacts.

Lemma same_header_refl (k : string) : same_header k k = true.
Proof. unfold same_header. apply String.eqb_refl. Qed.

Lemma getHeader_setHeader (key : string) (v : value) (hs : headers_t) :
  getHeader key (setHeader key v hs) = Some v.
Proof.
  induction hs as [|[k v'] hs IH]; simpl.
  - now rewrite same_header_refl.
  - destruct (same_header k key) eqn:Hk; simpl.
    + now rewrite same_header_refl.
    + now rewrite Hk.
Qed.

Lemma same_header_spec (a b : string) :
  same_header a b = true <-> lower a = lower b.
Proof. unfold same_header. apply String.eqb_eq. Qed.

Lemma same_header_false_spec (a b : string) :
  same_header a b = false <-> lower a <> lower b.
Proof. unfold same_header. apply String.eqb_neq. Qed.

(** Setting one header leaves every header of another name as it was. *)
Lemma getHeader_setHeader_other (key k : string) (v : value) (hs : headers_t) :
  same_header key k = false ->
  getHeader k (setHeader key v hs) = getHeader k hs.
Proof.
  intros Hk. induction hs as [|[k' v'] hs IH]; simpl.
  - now rewrite Hk.
  - destruct (same_header k' key) eqn:Hkey; simpl.
    + rewrite Hk.
      assert (Hf : same_header k' k = false).
      { apply same_header_false_spec. apply same_header_spec in Hkey.
        apply same_header_false_spec in Hk. congruence. }
      now rewrite Hf.
    + now rewrite IH.
Qed.

(** Setting a header makes it readable under every spelling of its name. *)
Lemma getHeader_setHeader_same (key k : string) (v : value) (hs : headers_t) :
  same_header key k = true ->
  getHeader k (setHeader key v hs) = Some v.
Proof.
  intros Hk. induction hs as [|[k' v'] hs IH]; simpl.
  - now rewrite Hk.
  - destruct (same_header k' key) eqn:Hkey; simpl.
    + now rewrite Hk.
    + assert (Hf : same_header k' k = false).
      { apply same_header_false_spec. apply same_header_false_spec in Hkey.
        apply same_header_spec in Hk. congruence. }
      now rewrite Hf.
Qed.

(** A header of the response after the headers of an answer were written
    onto it: the last one of that name in the answer, and the one the
    response had when the answer has none. *)
Lemma getHeader_relayHeaders (k : string) (hs : headers_t) :
  forall r,
    getHeader k (headers (relayHeaders hs r)) =
    match last_header k hs with
    | Some v => Some v
    | None => getHeader k (headers r)
    end.
Proof.
  induction hs as [|[k1 v1] hs IH]; intros r; [reflexivity|].
  change (relayHeaders ((k1, v1) :: hs) r)
    with (relayHeaders hs (res_setHeader k1 v1 r)).
  rewrite IH. simpl.
  destruct (last_header k hs); [reflexivity|].
  destruct (same_header k1 k) eqn:Hk.
  - now apply getHeader_setHeader_same.
  - now apply getHeader_setHeader_other.
Qed.

End HeaderFacts.

Section ForwardingFacts.

Variable P : Process.

(** What a run that reaches forwarding leaves behind: the endpoint found
    for the URL as it came in, the outgoing request for the rewritten URL,
    and the identifier drawn for this request. *)
Lemma forwarded_run (i : Incoming) (lg : list LogEntry) (n : nat) :
  let w := handle P i lg n in
  invoked SForward w ->
  exists e p,
    getEndpoint (config P) (i_url i) = Some e /\
    endpoint (req w) = VStr (name e) /\
    proxyReq w = Some p /\
    p_url p = Regex.replace (i_url i) (pattern e) (target e) /\
    path p = HttpProxy.outgoing_path (url_path P (p_url p)) "" /\
    proxyUrl (req w) = VStr (path p) /\
    requestId (req w) = VStr (uuid_v4 P n) /\
    upstream_request_id w = Some (VStr (uuid_v4 P n)) /\
    client_request_id w =
    match upstream_sent_id (i_env i) with
    | Some v => Some v
    | None => Some (VStr (uuid_v4 P n))
    end /\
    uuids w = S n.
Proof.
  destruct i as [[t ip ban auth rate up] u hs].
  unfold_run. cbn.
  destruct (truthy ip) eqn:Hip; cbn; [|intuition discriminate].
  destruct ban as [berr|bs bb]; cbn; [|intuition discriminate].
  destruct (truthy berr) eqn:Hb; cbn; [intuition discriminate|].
  destruct (getEndpoint (config P) u) as [e|] eqn:He; cbn; [|intuition discriminate].
  destruct auth as [aerr tok|s b]; cbn; [|intuition discriminate].
  destruct (truthy aerr) eqn:Ha; cbn; [intuition discriminate|].
  destruct rate as [|s b]; cbn; [|intuition discriminate].
  intros _. exists e. eexists.
  destruct up as [us uh ub|uerr]; cbn;
    (split; [reflexivity|]); (split; [reflexivity|]); (split; [reflexivity|]);
    cbn; rewrite ?getHeader_setHeader; repeat split; try reflexivity.
  fold (relayHeaders uh
          (mkResponse [("X-Request-ID", VStr (uuid_v4 P n))] None None false)).
  rewrite getHeader_relayHeaders. reflexivity.
Qed.

(** A run that reaches forwarding and finds the upstream unreachable: the
    error listener adds the error to the log, and the response is left
    without status, without body and open. *)
Lemma upstream_failure_run (i : Incoming) (lg : list LogEntry) (n : nat) (err : value) :
  upstream (i_env i) = UpstreamFails err ->
  let w := handle P i lg n in
  invoked SForward w ->
  log w = (lg ++ [LogError err])%list /\
  statusCode (res w) = None /\ body (res w) = None /\ finished (res w) = false.
Proof.
  destruct i as [[t ip ban auth rate up] u hs].
  unfold_run. cbn. intros ->.
  destruct (truthy ip) eqn:Hip; cbn; [|intuition discriminate].
  destruct ban as [berr|bs bb]; cbn; [|intuition discriminate].
  destruct (truthy berr) eqn:Hb; cbn; [intuition discriminate|].
  destruct (getEndpoint (config P) u) as [e|] eqn:He; cbn; [|intuition discriminate].
  destruct auth as [aerr tok|s b]; cbn; [|intuition discriminate].
  destruct (truthy aerr) eqn:Ha; cbn; [intuition discriminate|].
  destruct rate as [|s b]; cbn; [|intuition discriminate].
  intros _. repeat split.
Qed.





End ForwardingFacts.

(* ================================================================= *)
(** ** Endpoint resolution and rewriting *)

(** C5: [getEndpoint] returns the first entry of the table, in declaration
    order, whose pattern matches the URL, however many later entries match
    as well, and nothing when no entry matches. *)
Theorem getEndpoint_first_match (cfg : Config) (u : string) :
  (forall e,
     getEndpoint cfg u = Some e <->
     exists before after,
       endpoints cfg = (before ++ e :: after)%list /\
       Regex.test (pattern e) u = true /\
       forall e', In e' before -> Regex.test (pattern e') u = false) /\
  (getEndpoint cfg u = None <->
   forall e, In e (endpoints cfg) -> Regex.test (pattern e) u = false) /\
  (forall a b ea eb,
     a < b ->
     nth_error (endpoints cfg) a = Some ea ->
     nth_error (endpoints cfg) b = Some eb ->
     Regex.test (pattern ea) u = true ->
     Regex.test (pattern eb) u = true ->
     exists k e, k <= a /\ nth_error (endpoints cfg) k = Some e /\
                 getEndpoint cfg u = Some e).
Proof.
  unfold getEndpoint. split; [|split].
  - intros e. apply getEndpoint_loop_first.
  - apply getEndpoint_loop_none.
  - intros a b ea eb _ Ha _ Hta _. revert a Ha.
    induction (endpoints cfg) as [|x es IH]; intros a Ha.
    + now destruct a.
    + simpl. destruct (Regex.test (pattern x) u) eqn:Hx.
      * exists 0, x. repeat split; auto with arith.
      * destruct a as [|a]; simpl in Ha.
        -- injection Ha as ->. congruence.
        -- destruct (IH a Ha) as (k & e & Hk & Hn & Hg).
           exists (S k), e. repeat split; auto with arith.
Qed.


(** C10: matching and rewriting work on the whole URL, query string
    included: the endpoint of a forwarded request is the first whose pattern
    tests true on the URL as it came in, and its target is the rewrite of
    that same string; two URLs with the same path can resolve to different
    endpoints because of their query strings. *)
Theorem matching_on_full_url :
  (forall (P : Process) (i : Incoming) (lg : list LogEntry) (n : nat),
     let w := handle P i lg n in
     url (req w) = i_url i /\
     (invoked SForward w ->
      exists e before after,
        endpoints (config P) = (before ++ e :: after)%list /\
        Regex.test (pattern e) (i_url i) = true /\
        (forall e', In e' before -> Regex.test (pattern e') (i_url i) = false) /\
        endpoint (req w) = VStr (name e) /\
        option_map p_url (proxyReq w) =
        Some (Regex.replace (i_url i) (pattern e) (target e))))
  /\
  (Url.pathname "/api/users/42?beta=1" = Url.pathname "/api/users/42?x=1" /\
   getEndpoint Sample.cfg "/api/users/42?beta=1" = Some Sample.beta /\
   getEndpoint Sample.cfg "/api/users/42?x=1" = Some Sample.users /\
   Regex.replace "/api/users/42?x=1" Sample.users_pat "http://users-svc/$1"
   = "http://users-svc/42?x=1").
Proof.
  split; [|cbv; repeat split].
  intros P i lg n w. split.
  - subst w. destruct i as [[t ip ban auth rate up] u hs].
    unfold handle, handler, accept, getUserIp, checkBan, authenticate, rateLimit,
      errorReq, proxy_web, on_proxyReq, on_proxyRes, on_error, logRequest,
      logger_error, abort, uuid_next. cbn.
    destruct (truthy ip); cbn; [|reflexivity].
    destruct ban; cbn; [|reflexivity].
    destruct (truthy err); cbn; [reflexivity|].
    destruct (getEndpoint (config P) u); cbn; [|reflexivity].
    destruct auth; cbn; [|reflexivity].
    destruct (truthy err0); cbn; [reflexivity|].
    destruct rate; cbn; [|reflexivity].
    destruct up; reflexivity.
  - intros Hf. destruct (forwarded_run P i lg n Hf)
      as (e & p & He & Hn & Hp & Hurl & _).
    apply getEndpoint_loop_first in He. destruct He as (before & after & H1 & H2 & H3).
    exists e, before, after. fold w in Hp. rewrite Hp. simpl. rewrite Hurl. auto.
Qed.

(* ================================================================= *)
(** ** The pipeline at particular requests *)

(** C1, the claim as it stands, fails where forwarding fails: all six
    stages ran, the last one failed, and no response has been written. *)
Lemma forwarding_failure_leaves_no_response :
  invoked SForward (handle Sample.proc Sample.r_upstream_down [] 0) /\
  stage_fails Sample.proc Sample.r_upstream_down SForward = true /\
  ~ responded (handle Sample.proc Sample.r_upstream_down [] 0) /\
  finished (res (handle Sample.proc Sample.r_upstream_down [] 0)) = false /\
  statusCode (res (handle Sample.proc Sample.r_upstream_down [] 0)) = None /\
  body (res (handle Sample.proc Sample.r_upstream_down [] 0)) = None.
Proof.
  unfold invoked, responded. cbn.
  repeat split; auto 10. intros [H _]. discriminate.
Qed.

(** C8: with the upstream unreachable the error is logged, and that is all:
    the response has neither status nor body and is not ended. *)
Lemma upstream_failure_is_only_logged :
  stages (events (handle Sample.proc Sample.r_upstream_down [] 0)) = pipeline_order /\
  upstream (i_env Sample.r_upstream_down) = UpstreamFails Sample.refused /\
  log (handle Sample.proc Sample.r_upstream_down [] 0) = [LogError Sample.refused] /\
  statusCode (res (handle Sample.proc Sample.r_upstream_down [] 0)) = None /\
  body (res (handle Sample.proc Sample.r_upstream_down [] 0)) = None /\
  finished (res (handle Sample.proc Sample.r_upstream_down [] 0)) = false.
Proof. cbv. repeat split. Qed.

(** C4, the claim as it stands, fails: the authenticator declares a 401,
    the client gets the 500 of the pipeline. *)
Lemma authenticator_status_not_relayed :
  getEndpoint (config Sample.proc) (i_url Sample.r_auth_error) = Some Sample.users /\
  authenticator (i_env Sample.r_auth_error)
  = AuthCallback Sample.unauthorized VUndefined /\
  declared_status Sample.unauthorized = Some 401 /\
  statusCode (res (handle Sample.proc Sample.r_auth_error [] 0)) = Some 500 /\
  statusCode (res (handle Sample.proc Sample.r_auth_error [] 0))
  <> declared_status Sample.unauthorized /\
  body (res (handle Sample.proc Sample.r_auth_error [] 0)) = Some internal_server_error /\
  body (res (handle Sample.proc Sample.r_auth_error [] 0)) <> Some Sample.unauthorized.
Proof. cbv. repeat split; discriminate. Qed.



(* ================================================================= *)
(** ** The properties at the sample requests *)

Section SampleFacts.

Import Sample.

(** An authenticator error at the sample request: the failing stage is
    reached, and the response is written. *)
Lemma pipeline_order_short_circuit_witness :
  invoked SAuth (handle proc r_auth_error [] 0) /\
  stage_fails proc r_auth_error SAuth = true /\
  responded (handle proc r_auth_error [] 0).
Proof.
  assert (Hin : invoked SAuth (handle proc r_auth_error [] 0)) by (cbv; auto 10).
  split; [exact Hin|]. split; [reflexivity|].
  apply (proj1 (proj2 (proj2 (proj2 (pipeline_order_short_circuit proc r_auth_error [] 0)))) SAuth);
    [exact Hin | reflexivity | discriminate].
Defined.

(** The sample request without a client address is answered with 500. *)
Lemma unresolved_identity_aborts_witness :
  truthy (clientIp (i_env r_no_ip)) = false /\
  statusCode (res (handle proc r_no_ip [] 0)) = Some 500.
Proof.
  split; [reflexivity|].
  exact (proj1 (unresolved_identity_aborts proc r_no_ip [] 0 eq_refl)).
Defined.

(** The sample request of a banned client keeps [req.requestId] undefined. *)
Lemma ban_denial_untraced_witness :
  stage_fails proc r_banned SBan = true /\
  requestId (req (handle proc r_banned [] 0)) = VUndefined.
Proof.
  split; [reflexivity|].
  exact (proj1 (proj1 (ban_denial_untraced proc r_banned [] 0) eq_refl)).
Defined.

(** The sample request whose authenticator reports a 401 is answered with 500. *)
Lemma authenticator_error_is_internal_error_witness :
  authenticator (i_env r_auth_error) = AuthCallback unauthorized VUndefined /\
  truthy unauthorized = true /\
  statusCode (res (handle proc r_auth_error [] 0)) = Some 500.
Proof.
  split; [reflexivity|]. split; [reflexivity|].
  exact (proj1 (authenticator_error_is_internal_error proc r_auth_error [] 0
                  eq_refl eq_refl eq_refl eq_refl eq_refl)).
Defined.

(** [/api/users/42] matches the second and the third entry of the sample
    table; the second is selected. *)
Lemma getEndpoint_first_match_witness :
  Regex.test (pattern users) "/api/users/42" = true /\
  Regex.test (pattern api) "/api/users/42" = true /\
  getEndpoint cfg "/api/users/42" = Some users.
Proof.
  split; [reflexivity|]. split; [reflexivity|].
  apply (proj1 (getEndpoint_first_match cfg "/api/users/42")).
  exists [beta], [api]. split; [reflexivity|]. split; [reflexivity|].
  intros e' [<- | []]. reflexivity.
Defined.



(** [/nothing] matches no entry of the sample table and is answered with 404. *)
Lemma unmatched_url_is_route_not_found_witness :
  (forall e, In e (endpoints (config proc)) ->
             Regex.test (pattern e) (i_url r_nothing) = false) /\
  statusCode (res (handle proc r_nothing [] 0)) = Some 404.
Proof.
  assert (H : forall e, In e (endpoints (config proc)) ->
                        Regex.test (pattern e) (i_url r_nothing) = false).
  { intros e [<- | [<- | [<- | []]]]; reflexivity. }
  split; [exact H|].
  exact (proj1 (proj2 (proj2 (proj2 (proj2
           (unmatched_url_is_route_not_found proc r_nothing [] 0 H)))) eq_refl eq_refl)).
Defined.

(** The sample request whose query string selects the first entry. *)
Lemma matching_on_full_url_witness :
  invoked SForward (handle proc r_beta [] 0) /\
  exists e before after,
    endpoints (config proc) = (before ++ e :: after)%list /\
    Regex.test (pattern e) (i_url r_beta) = true /\
    (forall e', In e' before -> Regex.test (pattern e') (i_url r_beta) = false) /\
    endpoint (req (handle proc r_beta [] 0)) = VStr (name e) /\
    option_map p_url (proxyReq (handle proc r_beta [] 0)) =
    Some (Regex.replace (i_url r_beta) (pattern e) (target e)).
Proof.
  assert (Hin : invoked SForward (handle proc r_beta [] 0)) by (cbv; auto 10).
  split; [exact Hin|].
  exact (proj2 (proj1 matching_on_full_url proc r_beta [] 0) Hin).
Defined.

End SampleFacts.

(* ================================================================= *)
(** ** Further properties of the pipeline *)

Section MorePipelineFacts.

Variable P : Process.

(** X1: an error reported by the ban check is logged and answered with the
    fixed 500; no identifier is drawn and no endpoint is looked up. *)
Theorem ban_error_is_internal_error
        (i : Incoming) (lg : list LogEntry) (n : nat) (err : value) :
  stage_fails P i SIdentity = false ->
  banGuard (i_env i) = BanCallback err ->
  truthy err = true ->
  let w := handle P i lg n in
  statusCode (res w) = Some 500 /\
  body (res w) = Some internal_server_error /\
  finished (res w) = true /\
  In (LogError err) (log w) /\
  requestId (req w) = VUndefined /\
  uuids w = n /\
  ~ invoked SEndpoint w /\ ~ invoked SAuth w /\ ~ invoked SRate w /\
  ~ invoked SForward w.
Proof.
  destruct i as [[t ip ban auth rate up] u hs].
  unfold stage_fails. unfold_run. cbn.
  intros Hip -> Herr.
  destruct (truthy ip); [cbn | discriminate].
  rewrite Herr. cbn.
  repeat split; try reflexivity; try (intuition discriminate).
  apply in_or_app. right. now left.
Qed.

(** X2: the response is ended in every run but one kind: the run that
    reaches forwarding and finds the upstream unreachable. *)
Theorem answered_unless_upstream_fails (i : Incoming) (lg : list LogEntry) (n : nat) :
  let w := handle P i lg n in
  (finished (res w) = true <->
   ~ (invoked SForward w /\ stage_fails P i SForward = true)) /\
  (finished (res w) = true -> statusCode (res w) <> None /\ body (res w) <> None) /\
  (finished (res w) = false -> statusCode (res w) = None /\ body (res w) = None).
Proof.
  destruct i as [[t ip ban auth rate up] u hs].
  unfold stage_fails. unfold_run. cbn.
  destruct (truthy ip) eqn:Hip; cbn;
    [|repeat split; try discriminate; intuition discriminate].
  destruct ban as [berr|bs bb]; cbn;
    [|repeat split; try discriminate; intuition discriminate].
  destruct (truthy berr) eqn:Hb; cbn;
    [repeat split; try discriminate; intuition discriminate|].
  destruct (getEndpoint (config P) u) as [e|] eqn:He; cbn;
    [|repeat split; try discriminate; intuition discriminate].
  destruct auth as [aerr tok|s b]; cbn;
    [|repeat split; try discriminate; intuition discriminate].
  destruct (truthy aerr) eqn:Ha; cbn;
    [repeat split; try discriminate; intuition discriminate|].
  destruct rate as [|s b]; cbn;
    [|repeat split; try discriminate; intuition discriminate].
  destruct up as [us uh ub|uerr]; cbn.
  - repeat split; try discriminate; intuition discriminate.
  - repeat split; try discriminate; try reflexivity.
    intros H; exfalso; apply H; split; [auto 10 | reflexivity].
Qed.

(** X4: [req.tokenId], [req.endpoint] and [req.proxyUrl] are set only once
    their stage has succeeded: the token is the authenticator's as soon as
    rate limiting is invoked and undefined in every other run; in the runs
    that reach forwarding, and in no other, there is a request to the
    upstream, [req.endpoint] is the name of the matched endpoint and
    [req.proxyUrl] is the path of that request. *)
Theorem fields_set_after_their_stage (i : Incoming) (lg : list LogEntry) (n : nat) :
  let w := handle P i lg n in
  (invoked SRate w ->
   exists err, authenticator (i_env i) = AuthCallback err (tokenId (req w)) /\
               truthy err = false) /\
  (~ invoked SRate w -> tokenId (req w) = VUndefined) /\
  (invoked SForward w ->
   exists e p, getEndpoint (config P) (i_url i) = Some e /\
               endpoint (req w) = VStr (name e) /\
               rateLimiter (i_env i) = RateCallback /\
               proxyReq w = Some p /\
               proxyUrl (req w) = VStr (path p)) /\
  (~ invoked SForward w ->
   endpoint (req w) = VUndefined /\ proxyUrl (req w) = VUndefined /\
   proxyReq w = None).
Proof.
  destruct i as [[t ip ban auth rate up] u hs].
  unfold_run. cbn.
  destruct (truthy ip) eqn:Hip; cbn; [|repeat split; intuition discriminate].
  destruct ban as [berr|bs bb]; cbn; [|repeat split; intuition discriminate].
  destruct (truthy berr) eqn:Hb; cbn; [repeat split; intuition discriminate|].
  destruct (getEndpoint (config P) u) as [e|] eqn:He; cbn;
    [|repeat split; intuition discriminate].
  destruct auth as [aerr tok|s b]; cbn; [|repeat split; intuition discriminate].
  destruct (truthy aerr) eqn:Ha; cbn; [repeat split; intuition discriminate|].
  destruct rate as [|s b]; cbn.
  2:{ repeat split; try (intuition discriminate).
      intros _. exists aerr. auto. }
  destruct up as [us uh ub|uerr]; cbn.
  all: split; [intros _; exists aerr; auto|].
  all: split; [intros Hn; exfalso; apply Hn; auto 10|].
  all: split; [intros _; exists e; eexists; repeat split; reflexivity
              | intros Hn; exfalso; apply Hn; auto 10].
Qed.

End MorePipelineFacts.

Section MoreForwardingFacts.

Variable P : Process.

(** X5: a request is forwarded only after every gate has let it pass:
    the client address resolved, the ban check, the authenticator and the
    rate limiter called back without error, and an endpoint matched. *)
Theorem forwarded_only_past_every_gate (i : Incoming) (lg : list LogEntry) (n : nat) :
  let w := handle P i lg n in
  (invoked SForward w <-> proxyReq w <> None) /\
  (invoked SForward w ->
   truthy (clientIp (i_env i)) = true /\
   (exists err, banGuard (i_env i) = BanCallback err /\ truthy err = false) /\
   (exists e, getEndpoint (config P) (i_url i) = Some e) /\
   (exists err token,
      authenticator (i_env i) = AuthCallback err token /\ truthy err = false) /\
   rateLimiter (i_env i) = RateCallback /\
   stages (events w) = pipeline_order).
Proof.
  destruct i as [[t ip ban auth rate up] u hs].
  unfold_run. cbn.
  destruct (truthy ip) eqn:Hip; cbn; [|repeat split; intuition discriminate].
  destruct ban as [berr|bs bb]; cbn; [|repeat split; intuition discriminate].
  destruct (truthy berr) eqn:Hb; cbn; [repeat split; intuition discriminate|].
  destruct (getEndpoint (config P) u) as [e|] eqn:He; cbn;
    [|repeat split; intuition discriminate].
  destruct auth as [aerr tok|s b]; cbn; [|repeat split; intuition discriminate].
  destruct (truthy aerr) eqn:Ha; cbn; [repeat split; intuition discriminate|].
  destruct rate as [|s b]; cbn; [|repeat split; intuition discriminate].
  destruct up as [us uh ub|uerr]; cbn.
  all: split; [split; [discriminate | auto 10]|].
  all: intros _; repeat split; eauto.
Qed.

(** X6: when the upstream answers a forwarded request, the client gets the
    upstream's status and body, and exactly one record is added to the log:
    the request as it stands at the end, with the client address, the
    request identifier, the token, the endpoint name and the proxy URL (the
    path of the request sent upstream) all set, together with the upstream
    status. *)
Theorem forwarded_success_is_relayed_and_logged
        (i : Incoming) (lg : list LogEntry) (n : nat)
        (status : nat) (hs : headers_t) (b : value) :
  upstream (i_env i) = UpstreamResponds status hs b ->
  let w := handle P i lg n in
  invoked SForward w ->
  statusCode (res w) = Some status /\
  body (res w) = Some b /\
  finished (res w) = true /\
  log w = (lg ++ [LogRequest (req w) status])%list /\
  userIP (req w) = clientIp (i_env i) /\
  startTime (req w) = VNum (now (i_env i)) /\
  requestId (req w) = VStr (uuid_v4 P n) /\
  (exists err, authenticator (i_env i) = AuthCallback err (tokenId (req w))) /\
  (exists e p, getEndpoint (config P) (i_url i) = Some e /\
               endpoint (req w) = VStr (name e) /\
               proxyReq w = Some p /\
               p_url p = Regex.replace (i_url i) (pattern e) (target e) /\
               proxyUrl (req w) = VStr (path p)).
Proof.
  destruct i as [[t ip ban auth rate up] u hs0].
  unfold_run. cbn. intros ->.
  destruct (truthy ip) eqn:Hip; cbn; [|intuition discriminate].
  destruct ban as [berr|bs bb]; cbn; [|intuition discriminate].
  destruct (truthy berr) eqn:Hb; cbn; [intuition discriminate|].
  destruct (getEndpoint (config P) u) as [e|] eqn:He; cbn; [|intuition discriminate].
  destruct auth as [aerr tok|s b']; cbn; [|intuition discriminate].
  destruct (truthy aerr) eqn:Ha; cbn; [intuition discriminate|].
  destruct rate as [|s b']; cbn; [|intuition discriminate].
  intros _. repeat split; eauto.
  exists e. eexists. repeat split; reflexivity.
Qed.

(** X7: among the headers that http-proxy prepares for the request sent
    upstream, the gateway changes [X-Request-ID] and nothing else: the
    header is set to the identifier of the request, also when a header of
    that name, under any spelling, was there already, and every other
    header stays as it was prepared. *)
Theorem upstream_headers_as_prepared (i : Incoming) (lg : list LogEntry) (n : nat) :
  let w := handle P i lg n in
  invoked SForward w ->
  exists p prepared,
    proxyReq w = Some p /\
    prepared = outgoing_headers P (mkProxyOptions (p_url p) true true true false)
                                (set_proxyUrl VUndefined (req w)) /\
    (forall k, same_header "X-Request-ID" k = true ->
               getHeader k (p_headers p) = Some (VStr (uuid_v4 P n))) /\
    (forall k, same_header "X-Request-ID" k = false ->
               getHeader k (p_headers p) = getHeader k prepared).
Proof.
  destruct i as [[t ip ban auth rate up] u hs].
  unfold_run. cbn.
  destruct (truthy ip) eqn:Hip; cbn; [|intuition discriminate].
  destruct ban as [berr|bs bb]; cbn; [|intuition discriminate].
  destruct (truthy berr) eqn:Hb; cbn; [intuition discriminate|].
  destruct (getEndpoint (config P) u) as [e|] eqn:He; cbn; [|intuition discriminate].
  destruct auth as [aerr tok|s b]; cbn; [|intuition discriminate].
  destruct (truthy aerr) eqn:Ha; cbn; [intuition discriminate|].
  destruct rate as [|s b]; cbn; [|intuition discriminate].
  intros _. eexists. eexists.
  destruct up as [us uh ub|uerr]; cbn;
    (split; [reflexivity|]); cbn; (split; [reflexivity|]); split; intros k Hk.
  all: first [now apply getHeader_setHeader_same
             | now apply getHeader_setHeader_other].
Qed.

Lemma last_cons_default (A : Type) (a d : A) (l : list A) :
  last (a :: l) d = last l a.
Proof.
  revert a d. induction l as [|x l IH]; intros a d; [reflexivity|].
  change (last (a :: x :: l) d) with (last (x :: l) d).
  now rewrite !IH.
Qed.

(** X8: over any sequence of requests, the generator hands out exactly one
    identifier for each request that gets past the ban check, whether or not
    the request is forwarded afterwards, and none for the others. *)
Theorem one_identifier_per_request_past_ban
        (rs : list Incoming) (lg : list LogEntry) (n : nat) :
  final_uuids P rs lg n = n + length (filter (passes_ban P) rs).
Proof.
  unfold final_uuids. revert lg n.
  induction rs as [|i rs IH]; intros lg n; [simpl; lia|].
  cbn [serve map filter]. rewrite last_cons_default, IH.
  pose proof (request_id_cases P i lg n) as H. cbv zeta in H.
  destruct H as [(F1 & _ & _ & _ & ->)
                | [(F1 & F2 & _ & _ & _ & ->) | (F1 & F2 & _ & -> & _)]];
    unfold passes_ban; rewrite F1; try rewrite F2; simpl; lia.
Qed.

End MoreForwardingFacts.

(* ================================================================= *)
(** ** Further properties of endpoint resolution and rewriting *)

Section MoreRoutingFacts.

Import Regex.

(** X9: looking a URL up in a table made of two parts is looking it up in
    the first part and, only when nothing matches there, in the second; so
    entries added at the end of the table never change where an already
    routed URL goes, and entries that do not match the URL can be added
    anywhere. *)
Theorem getEndpoint_of_joined_tables (es1 es2 : list Endpoint) (u : string) :
  getEndpoint (mkConfig (es1 ++ es2)) u =
  match getEndpoint (mkConfig es1) u with
  | Some e => Some e
  | None => getEndpoint (mkConfig es2) u
  end.
Proof.
  unfold getEndpoint. simpl.
  induction es1 as [|x es1 IH]; simpl; [reflexivity|].
  destruct (test (pattern x) u); [reflexivity | exact IH].
Qed.

Lemma exec_from_anchored (r : regex) (s : string) :
  forall pos mr, exec_from (Seq Bol r) pos s = Some mr -> m_start mr = 0.
Proof.
  induction s as [|c s IH]; intros pos mr H; simpl in H.
  - destruct (pos =? 0) eqn:Hp.
    + destruct (rmatch r pos "" [] _) as [[e cs]|]; [|discriminate].
      injection H as <-. simpl. now apply Nat.eqb_eq.
    + discriminate.
  - destruct (pos =? 0) eqn:Hp.
    + destruct (rmatch r pos (String c s) [] _) as [[e cs]|].
      * injection H as <-. simpl. now apply Nat.eqb_eq.
      * now apply IH in H.
    + now apply IH in H.
Qed.

(** X10: a pattern that begins with [^] matches at the start of the URL or
    not at all, so the rewritten target begins with the expanded template:
    nothing of the URL is left in front of it. *)
Theorem anchored_pattern_rewrites_from_start
        (r : regex) (u tmpl : string) (mr : match_result) :
  exec (Seq Bol r) u = Some mr ->
  m_start mr = 0 /\
  replace u (Seq Bol r) tmpl =
  expand (ngroups r) (m_caps mr) (Str.take (m_end mr) u) "" (Str.drop (m_end mr) u) tmpl
  ++ Str.drop (m_end mr) u.
Proof.
  intros H. pose proof (exec_from_anchored _ _ _ H) as H0.
  split; [exact H0|].
  unfold replace. rewrite H. unfold Str.slice. rewrite H0.
  rewrite Nat.sub_0_r. destruct u; reflexivity.
Qed.

Lemma expand_no_dollar m caps matched pre suf (tmpl : string) :
  no_dollar tmpl = true -> expand m caps matched pre suf tmpl = tmpl.
Proof.
  induction tmpl as [|c rest IH]; simpl; [reflexivity|].
  intros H. apply andb_true_iff in H. destruct H as [Hc Hr].
  destruct (Ascii.eqb c "$"%char); [discriminate|].
  now rewrite IH.
Qed.

(** X11: with a target template that contains no [$], the target is the
    URL with the matched text exchanged for the template as it is written:
    nothing of the matched text reaches the upstream URL. *)
Theorem literal_template_replaces_match
        (r : regex) (u tmpl : string) (mr : match_result) :
  no_dollar tmpl = true ->
  exec r u = Some mr ->
  replace u r tmpl = Str.take (m_start mr) u ++ tmpl ++ Str.drop (m_end mr) u.
Proof.
  intros Hd H. unfold replace. rewrite H. now rewrite expand_no_dollar.
Qed.

End MoreRoutingFacts.

(* ================================================================= *)
(** ** Properties of the login form *)

Section LoginFacts.

Import Login.

Lemma trim_start_prefix (s : text) :
  exists l, s = (l ++ trim_start s)%list /\ all_space l = true.
Proof.
  induction s as [|c s IH]; simpl.
  - now exists [].
  - destruct (is_space c) eqn:Hc.
    + destruct IH as (l & Hl & Hs). exists (c :: l).
      unfold all_space in *. simpl. rewrite Hc, Hs. now rewrite <- Hl.
    + now exists [].
Qed.

Lemma trim_start_no_space (s : text) : starts_with_space (trim_start s) = false.
Proof.
  induction s as [|c s IH]; simpl; [reflexivity|].
  destruct (is_space c) eqn:Hc; [exact IH | simpl; exact Hc].
Qed.

Lemma trim_end_suffix (s : text) :
  exists r, s = (trim_end s ++ r)%list /\ all_space r = true.
Proof.
  induction s as [|c s IH]; simpl.
  - now exists [].
  - destruct IH as (r & Hr & Hs).
    destruct (trim_end s) as [|c' t] eqn:Ht.
    + simpl in Hr. subst r. destruct (is_space c) eqn:Hc.
      * exists (c :: s). unfold all_space in *. simpl. now rewrite Hc, Hs.
      * now exists s.
    + exists r. simpl. split; [|exact Hs]. now rewrite Hr at 1.
Qed.

Lemma trim_end_no_space (s : text) : ends_with_space (trim_end s) = false.
Proof.
  induction s as [|c s IH]; simpl; [reflexivity|].
  destruct (trim_end s) as [|c' t] eqn:Ht.
  - destruct (is_space c) eqn:Hc; simpl; [reflexivity | exact Hc].
  - exact IH.
Qed.

Lemma trim_end_keeps_start (s : text) :
  starts_with_space s = false -> starts_with_space (trim_end s) = false.
Proof.
  destruct s as [|c s]; simpl; [reflexivity|]. intros Hc.
  destruct (trim_end s); [rewrite Hc|]; simpl; exact Hc.
Qed.

Lemma trim_start_fixed (s : text) :
  starts_with_space s = false -> trim_start s = s.
Proof. destruct s as [|c s]; simpl; [reflexivity|]. now intros ->. Qed.

Lemma trim_end_fixed (s : text) :
  ends_with_space s = false -> trim_end s = s.
Proof.
  induction s as [|c s IH]; simpl; [reflexivity|].
  destruct s as [|c' s'].
  - simpl. now intros ->.
  - intros H. rewrite (IH H). reflexivity.
Qed.

Lemma trim_is_trimmed (s : text) : trimmed (trim s) = true.
Proof.
  unfold trimmed, trim.
  rewrite trim_end_keeps_start by apply trim_start_no_space.
  now rewrite trim_end_no_space.
Qed.

Lemma trimmed_fixed (s : text) : trimmed s = true -> trim s = s.
Proof.
  unfold trimmed, trim. intros H. apply andb_true_iff in H. destruct H as [H1 H2].
  apply negb_true_iff in H1. apply negb_true_iff in H2.
  rewrite (trim_start_fixed _ H1). now apply trim_end_fixed.
Qed.

(** X12: what the form stores for a typed value is the value without the
    white space around it: the typed value is white space, then the stored
    text, then white space, and the stored text neither begins nor ends
    with white space. *)
Theorem stored_value_is_typed_value_trimmed (value : text) (st : State) :
  exists l r,
    value = (l ++ username (updateUsername value st) ++ r)%list /\
    value = (l ++ password (updatePassword value st) ++ r)%list /\
    all_space l = true /\ all_space r = true /\
    trimmed (username (updateUsername value st)) = true /\
    trimmed (password (updatePassword value st)) = true.
Proof.
  simpl. destruct (trim_start_prefix value) as (l & Hl & Hls).
  destruct (trim_end_suffix (trim_start value)) as (r & Hr & Hrs).
  exists l, r. fold (trim value) in Hr.
  assert (H : value = (l ++ trim value ++ r)%list) by (rewrite <- Hr; exact Hl).
  repeat split; auto using trim_is_trimmed.
Qed.

(** X13: typing a value that has no white space around it stores it as it
    is, and typing what is stored again changes nothing. *)
Theorem typing_a_trimmed_value_keeps_it (value : text) (st : State) :
  (trimmed value = true ->
   username (updateUsername value st) = value /\
   password (updatePassword value st) = value) /\
  updateUsername (username (updateUsername value st)) (updateUsername value st)
  = updateUsername value st /\
  updatePassword (password (updatePassword value st)) (updatePassword value st)
  = updatePassword value st.
Proof.
  split; [intros H; simpl; now rewrite (trimmed_fixed _ H)|].
  unfold updateUsername, updatePassword. simpl.
  now rewrite (trimmed_fixed _ (trim_is_trimmed value)).
Qed.

(** White space of every kind goes: [alice] followed by an em space
    (U+2003) and preceded by a tab and a no-break space is stored as
    [alice]. *)
Example unicode_space_is_trimmed :
  username (updateUsername ([9; 160] ++ of_string "alice" ++ [8195])%list%N initial)
  = of_string "alice".
Proof. reflexivity. Qed.

Lemma run_state (acts : list Action) :
  forall st,
    fst (run st acts)
    = mkState (last_username acts (username st)) (last_password acts (password st)).
Proof.
  induction acts as [|a acts IH]; intros st; simpl.
  - now destruct st.
  - destruct a; simpl.
    + now rewrite IH.
    + now rewrite IH.
    + specialize (IH st). destruct (run st acts). exact IH.
Qed.

Lemma run_app (a1 a2 : list Action) :
  forall st,
    run st (a1 ++ a2)%list
    = (fst (run (fst (run st a1)) a2),
       (snd (run st a1) ++ snd (run (fst (run st a1)) a2))%list).
Proof.
  induction a1 as [|a a1 IH]; intros st; simpl.
  - now destruct (run st a2).
  - destruct a; simpl; try apply IH.
    rewrite IH. destruct (run st a1). reflexivity.
Qed.

(** X14: a tap on the button hands [onLoginClick] what was typed last into
    each field, trimmed, and the empty string for a field never typed into;
    typing into one field never changes the other, and a tap changes
    neither. *)
Theorem tap_submits_last_typed_values (before : list Action) :
  run initial (before ++ [TapLogin])%list
  = (mkState (last_username before []) (last_password before []),
     (snd (run initial before)
        ++ [(last_username before [], last_password before [])])%list).
Proof.
  rewrite run_app. simpl. rewrite run_state. reflexivity.
Qed.

Lemma calls_trimmed (acts : list Action) :
  forall st,
    trimmed (username st) = true -> trimmed (password st) = true ->
    Forall (fun c => trimmed (fst c) = true /\ trimmed (snd c) = true)
           (snd (run st acts)).
Proof.
  induction acts as [|a acts IH]; intros st Hu Hp; simpl.
  - constructor.
  - destruct a; simpl.
    + apply IH; simpl; auto using trim_is_trimmed.
    + apply IH; simpl; auto using trim_is_trimmed.
    + specialize (IH st Hu Hp). destruct (run st acts) as [st' calls]. simpl in *.
      constructor; auto.
Qed.

(** X15: whatever the user does, every call of [onLoginClick] gets a user
    name and a password without white space at either end. *)
Theorem credentials_are_always_trimmed (acts : list Action) :
  Forall (fun c => trimmed (fst c) = true /\ trimmed (snd c) = true)
         (snd (run initial acts)).
Proof. apply calls_trimmed; reflexivity. Qed.

End LoginFacts.

(* ================================================================= *)
(** ** The further properties at sample inputs *)

Section MoreSampleFacts.

Import Sample Scenario.

(** The sample request whose ban check reports an error is answered with 500. *)
Lemma ban_error_is_internal_error_witness :
  stage_fails proc r_ban_error SIdentity = false /\
  banGuard (i_env r_ban_error) = BanCallback store_down /\
  truthy store_down = true /\
  statusCode (res (handle proc r_ban_error [] 0)) = Some 500.
Proof.
  split; [reflexivity|]. split; [reflexivity|]. split; [reflexivity|].
  exact (proj1 (ban_error_is_internal_error proc r_ban_error [] 0
                  eq_refl eq_refl eq_refl)).
Defined.

(** The forwarded sample request is answered, so it has a status. *)
Lemma answered_unless_upstream_fails_witness :
  finished (res (handle proc r_ok [] 0)) = true /\
  statusCode (res (handle proc r_ok [] 0)) <> None.
Proof.
  split; [reflexivity|].
  exact (proj1 (proj1 (proj2 (answered_unless_upstream_fails proc r_ok [] 0)) eq_refl)).
Defined.

(** The forwarded sample request has its proxy URL set to the path of the
    request sent upstream. *)
Lemma fields_set_after_their_stage_witness :
  invoked SForward (handle proc r_ok [] 0) /\
  exists p, proxyReq (handle proc r_ok [] 0) = Some p /\
            proxyUrl (req (handle proc r_ok [] 0)) = VStr (path p).
Proof.
  assert (Hf : invoked SForward (handle proc r_ok [] 0)) by (cbv; auto 10).
  split; [exact Hf|].
  destruct (proj1 (proj2 (proj2 (fields_set_after_their_stage proc r_ok [] 0))) Hf)
    as (e & p & _ & _ & _ & Hp & Hu).
  exists p. split; assumption.
Defined.

(** The forwarded sample request went through all six stages. *)
Lemma forwarded_only_past_every_gate_witness :
  invoked SForward (handle proc r_ok [] 0) /\
  stages (events (handle proc r_ok [] 0)) = pipeline_order.
Proof.
  assert (Hf : invoked SForward (handle proc r_ok [] 0)) by (cbv; auto 10).
  split; [exact Hf|].
  exact (proj2 (proj2 (proj2 (proj2 (proj2
           (proj2 (forwarded_only_past_every_gate proc r_ok [] 0) Hf)))))).
Defined.

(** The forwarded sample request gets the upstream's 200. *)
Lemma forwarded_success_is_relayed_and_logged_witness :
  upstream (i_env r_ok) = UpstreamResponds 200 ok_headers ok_body /\
  invoked SForward (handle proc r_ok [] 0) /\
  statusCode (res (handle proc r_ok [] 0)) = Some 200.
Proof.
  assert (Hf : invoked SForward (handle proc r_ok [] 0)) by (cbv; auto 10).
  split; [reflexivity|]. split; [exact Hf|].
  exact (proj1 (forwarded_success_is_relayed_and_logged proc r_ok [] 0 eq_refl Hf)).
Defined.

(** The identifier a client sent is replaced. *)
Lemma upstream_headers_as_prepared_witness :
  invoked SForward (handle proc r_forged_id [] 0) /\
  exists p,
    proxyReq (handle proc r_forged_id [] 0) = Some p /\
    getHeader "x-request-id" (p_headers p) = Some (VStr (uuid_v4 proc 0)).
Proof.
  assert (Hf : invoked SForward (handle proc r_forged_id [] 0)) by (cbv; auto 10).
  split; [exact Hf|].
  destruct (upstream_headers_as_prepared proc r_forged_id [] 0 Hf)
    as (p & prepared & Hp & _ & Hid & _).
  exists p. split; [exact Hp|]. exact (Hid "x-request-id" eq_refl).
Defined.

(** The anchored users pattern on the sample URL. *)
Lemma anchored_pattern_rewrites_from_start_witness :
  Regex.exec anchored_users_pat "/api/users/42?x=1"
  = Some (Regex.MatchResult 0 17 [(1, "42?x=1")]) /\
  Regex.replace "/api/users/42?x=1" anchored_users_pat "http://users-svc/$1"
  = "http://users-svc/42?x=1".
Proof.
  split; [reflexivity|].
  exact (proj2 (anchored_pattern_rewrites_from_start
                  users_pat "/api/users/42?x=1" "http://users-svc/$1" eq_refl)).
Defined.

(** A template without [$] on the sample URL. *)
Lemma literal_template_replaces_match_witness :
  no_dollar "http://static/" = true /\
  Regex.exec users_pat "/v1/api/users/42"
  = Some (Regex.MatchResult 3 16 [(1, "42")]) /\
  Regex.replace "/v1/api/users/42" users_pat "http://static/" = "/v1http://static/".
Proof.
  split; [reflexivity|]. split; [reflexivity|].
  exact (literal_template_replaces_match users_pat "/v1/api/users/42"
           "http://static/" eq_refl eq_refl).
Defined.

(** A user name typed without white space around it is stored as typed. *)
Lemma typing_a_trimmed_value_keeps_it_witness :
  Login.trimmed (Login.of_string "alice") = true /\
  Login.username (Login.updateUsername (Login.of_string "alice") Login.initial)
  = Login.of_string "alice".
Proof.
  split; [reflexivity|].
  exact (proj1 (proj1 (typing_a_trimmed_value_keeps_it
                         (Login.of_string "alice") Login.initial) eq_refl)).
Defined.

End MoreSampleFacts.
